(** * i.rescale.rgb: percentile stretch of three raster bands into an RGB group

    A shallow embedding of [i.rescale.rgb.py].  The script is an
    orchestration of GRASS GIS modules: it validates its options, asks
    [r.quantile] for two percentiles per band, submits two [r.mapcalc]
    expressions per band (clamp, then rescale), copies a raster when a
    band is used twice and finally calls [i.group].

    Modelling choices.
    - Python [str] is [string] (a sequence of 8-bit characters; text
      outside ASCII is not considered, and what is said about [int()] is
      said for ASCII text); Python [int] is [Z].
    - The GRASS modules are external: the engine is an oracle that sees
      the history of commands and either fails (non-zero exit status,
      which [grass.run_command] turns into [CalledModuleError]) or answers
      with the keys [grass.parse_command] would build from its output.
    - [grass.fatal] prints its message and calls [sys.exit(1)]: the
      [SystemExit] it raises is not an [Exception], so [except Exception]
      does not catch it.  [_()] (gettext) is the identity.
    - The module-level list [rm_rasters] and the commands issued so far
      are the state threaded through [main]. *)

From Stdlib Require Import Ascii ZArith QArith Qround Lia Lqa Floats.
From stdpp Require Import base decidable option list strings pretty gmap.

(* stdpp's solvers clear hypotheses that are sometimes already gone. *)
Set Warnings "-clear-no-such-hyp".

Local Open Scope Z_scope.

(** ** Python string primitives used by the script *)

Module Py.

(** [s.split(sep)] for a one-character separator: never empty, keeps
    empty fields. *)
Fixpoint split (sep : ascii) (s : string) : list string :=
  match s with
  | EmptyString => [EmptyString]
  | String c s' =>
      if Ascii.eqb c sep then EmptyString :: split sep s'
      else match split sep s' with
           | [] => [String c EmptyString]
           | w :: ws => String c w :: ws
           end
  end.

(** [l[-1]] on the (non-empty) result of a split. *)
Definition last_item (l : list string) : string := List.last l EmptyString.

(** [len(set(l))]: the number of distinct items. *)
Definition len_set (l : list string) : nat := length (remove_dups l).

(** [x in l]. *)
Definition contains (x : string) (l : list string) : bool :=
  bool_decide (x ∈ l).

(** Characters [int()] skips at both ends of an ASCII argument: tab,
    line feed, vertical tab, form feed, carriage return and space. *)
Definition is_space (c : ascii) : bool :=
  match c with
  | "009" | "010" | "011" | "012" | "013" | " " => true
  | _ => false
  end%char.

(** All characters are below 128. *)
Fixpoint is_ascii (s : string) : bool :=
  match s with
  | EmptyString => true
  | String c s' => (N_of_ascii c <? 128)%N && is_ascii s'
  end.

Fixpoint lstrip (s : string) : string :=
  match s with
  | EmptyString => EmptyString
  | String c s' => if is_space c then lstrip s' else s
  end.

Definition strip (s : string) : string :=
  String.rev (lstrip (String.rev (lstrip s))).

(** The value of a decimal digit, from its character code. *)
Definition digit (c : ascii) : option Z :=
  let code := Z.of_N (N_of_ascii c) in
  if (48 <=? code) && (code <=? 57) then Some (code - 48) else None.

(** The rest of a decimal literal after a digit: digits, each
    optionally preceded by one underscore. *)
Fixpoint digits_go (acc : Z) (s : string) : option Z :=
  match s with
  | EmptyString => Some acc
  | String c s' =>
      if Ascii.eqb c "_"%char then
        match s' with
        | EmptyString => None
        | String d s'' =>
            match digit d with
            | Some v => digits_go (10 * acc + v) s''
            | None => None
            end
        end
      else
        match digit c with
        | Some v => digits_go (10 * acc + v) s'
        | None => None
        end
  end.

(** The interpreter's default limit on the number of digits of a
    decimal text ([sys.int_info.default_max_str_digits]). *)
Definition max_str_digits : nat := 4300.

Fixpoint count_digits (s : string) : nat :=
  match s with
  | EmptyString => 0
  | String c s' =>
      (match digit c with Some _ => 1 | None => 0 end + count_digits s')%nat
  end.

Definition digits (s : string) : option Z :=
  match s with
  | EmptyString => None
  | String c s' =>
      match digit c with
      | Some v =>
          if (count_digits s <=? max_str_digits)%nat then digits_go v s'
          else None
      | None => None
      end
  end.

(** [int(s)] in base 10 for an ASCII [s]; [None] is [ValueError]:
    optional white space at both ends, an optional sign, then digits with
    single underscores between them, at most [max_str_digits] digits. *)
Definition int (s : string) : option Z :=
  match strip s with
  | String c t =>
      if Ascii.eqb c "-"%char then Z.opp <$> digits t
      else if Ascii.eqb c "+"%char then digits t
      else digits (String c t)
  | EmptyString => None
  end.

(** ["%s" % n] for an [int]. *)
Definition str_int (n : Z) : string := pretty n.

End Py.

(** ** Commands, exceptions and the state threaded through the script *)

(** The GRASS modules the script runs, with the arguments it passes. *)
Inductive command : Type :=
| r_quantile (input percentiles : string)
| r_mapcalc (expression : string)
| g_copy (raster : string)
| i_group (group : string) (input : list string)
| g_remove (name : string).

(** Python exceptions that can escape a statement of the script. *)
Inductive exn : Type :=
| IndexError
| ValueError
| TypeError
| CalledModuleError (c : command).

(** How a computation ends: normally, through [grass.fatal] (message,
    exit status 1) or with an uncaught exception. *)
Inductive result (A : Type) : Type :=
| Ok (a : A)
| Fatal (msg : string)
| Raised (e : exn).
Arguments Ok {A} a.
Arguments Fatal {A} msg.
Arguments Raised {A} e.

(** [try: body / except Exception: handler].  [Fatal] is [SystemExit]
    and passes through. *)
Definition try_except {A} (body handler : result A) : result A :=
  match body with
  | Raised _ => handler
  | r => r
  end.

Definition rbind {A B} (r : result A) (k : A -> result B) : result B :=
  match r with
  | Ok a => k a
  | Fatal msg => Fatal msg
  | Raised e => Raised e
  end.

(** [l[i]] for a non-negative index. *)
Definition item {A} (l : list A) (i : nat) : result A :=
  match l !! i with
  | Some x => Ok x
  | None => Raised IndexError
  end.

(** [int(s)]. *)
Definition to_int (s : string) : result Z :=
  match Py.int s with
  | Some n => Ok n
  | None => Raised ValueError
  end.

(** The module-level list [rm_rasters] and the commands issued so far
    (oldest first). *)
Record state : Type := mkState {
  rm_rasters : list string;
  log : list command
}.

(** The engine: given the commands already run and the next one, [None]
    when the module fails, otherwise the keys parsed from its output. *)
Definition engine : Type := list command -> command -> option (list string).

Definition M (A : Type) : Type := state -> result A * state.

Definition ret {A} (a : A) : M A := fun st => (Ok a, st).

Definition bind {A B} (m : M A) (k : A -> M B) : M B :=
  fun st =>
    match m st with
    | (Ok a, st') => k a st'
    | (Fatal msg, st') => (Fatal msg, st')
    | (Raised e, st') => (Raised e, st')
    end.

Definition lift {A} (r : result A) : M A := fun st => (r, st).

Declare Scope script_scope.
Delimit Scope script_scope with script.
Notation "x <- m ;; k" := (bind m (fun x => k))
  (at level 100, m at next level, right associativity) : script_scope.
Notation "m ;; k" := (bind m (fun _ => k))
  (at level 100, right associativity) : script_scope.
Local Open Scope script_scope.

(** [rm_rasters.append(name)]. *)
Definition register (name : string) : M unit :=
  fun st => (Ok tt, mkState (rm_rasters st ++ [name]) (log st)).

(** [grass.run_command] and [grass.parse_command]: the command is
    issued, and a failing module raises. *)
Definition run_command (e : engine) (c : command) : M (list string) :=
  fun st =>
    let st' := mkState (rm_rasters st) (log st ++ [c]) in
    match e (log st) c with
    | Some keys => (Ok keys, st')
    | None => (Raised (CalledModuleError c), st')
    end.

(** ** The options of the module *)

Record options : Type := mkOptions {
  red : string;
  green : string;
  blue : string;
  output : string;
  lower_percentile : string;
  upper_percentile : string;
  output_range : string;
  suffix : string
}.

(** ** [main] *)

Definition msg_bands : string :=
  "At least two different rasters must be used as input.".

Definition msg_order (lower_out_int upper_out_int : Z) : string :=
  "First value of output_range (" +:+ Py.str_int lower_out_int +:+
  ") is larger than second value (" +:+ Py.str_int upper_out_int +:+ ")".

Definition msg_format : string :=
  "Parameter output_range must be in format <min,max> where min and max " +:+
  "are integer values".

Definition msg_created (output : string) : string :=
  "Created output group <" +:+ output +:+ ">".

(** Lines 119-135: the [try] block over the split [output_range]; its
    result is the pair of tokens [lower_out], [upper_out] used later. *)
Definition check_output_range (output_range : list string)
  : result (string * string) :=
  try_except
    (rbind (item output_range 0) (fun lower_out =>
     rbind (item output_range 1) (fun upper_out =>
     rbind (to_int lower_out) (fun lower_out_int =>
     rbind (to_int upper_out) (fun upper_out_int =>
     if upper_out_int <? lower_out_int
     then Fatal (msg_order lower_out_int upper_out_int)
     else Ok (lower_out, upper_out))))))
    (Fatal msg_format).

(** Lines 112-135: everything [main] does before the first command. *)
Definition validate (o : options) : result (list string * (string * string)) :=
  let output_range := Py.split "," (output_range o) in
  let rgb_in := [red o; green o; blue o] in
  if (Py.len_set rgb_in <? 2)%nat then Fatal msg_bands
  else rbind (check_output_range output_range) (fun r => Ok (rgb_in, r)).

(** Lines 155-165: the clamp expression. *)
Definition clamp_expression (out in_ lower_in upper_in : string) : string :=
  out +:+ " = if(" +:+ in_ +:+ " <= " +:+ lower_in +:+ ", " +:+ lower_in +:+ "," +:+
  "if(" +:+ in_ +:+ " >= " +:+ upper_in +:+ ", " +:+ upper_in +:+ "," +:+
  in_ +:+ "))".

(** Lines 168-179: the rescale expression (right-hand side). *)
Definition resc_expression2 (in_ lower_in upper_in upper_out lower_out : string)
  : string :=
  "((" +:+ in_ +:+ " - " +:+ lower_in +:+ ")/" +:+
  "(" +:+ upper_in +:+ " - " +:+ lower_in +:+ "))" +:+
  " * " +:+ upper_out +:+ " + " +:+ lower_out.

(** Lines 180-185. *)
Definition resc_expression (f : bool) (rescaled_rast in_ lower_in upper_in
                            upper_out lower_out : string) : string :=
  let resc := resc_expression2 in_ lower_in upper_in upper_out lower_out in
  let resc_expression_part2 := if f then resc else "round(" +:+ resc +:+ ")" in
  rescaled_rast +:+ " = " +:+ resc_expression_part2.

Definition rescaled_name (rast suffix : string) : string :=
  rast +:+ "_" +:+ suffix.

Definition temp_name (rast : string) (pid : Z) : string :=
  rast +:+ "_tmp_" +:+ Py.str_int pid.

Section Script.

Variable e : engine.
Variable o : options.
(** [flags["f"]] and [os.getpid()]. *)
Variable f : bool.
Variable pid : Z.

(** Lines 142-186: the work done for a band not yet rescaled. *)
Definition rescale (lower_out upper_out rast rescaled_rast : string) : M unit :=
  vals <- run_command e
            (r_quantile rast (lower_percentile o +:+ "," +:+ upper_percentile o)) ;;
  k0 <- lift (item vals 0) ;;
  let lower_in := Py.last_item (Py.split ":" k0) in
  k1 <- lift (item vals 1) ;;
  let upper_in := Py.last_item (Py.split ":" k1) in
  let temp_mapcalc_rast := temp_name rast pid in
  register temp_mapcalc_rast ;;
  run_command e
    (r_mapcalc (clamp_expression temp_mapcalc_rast rast lower_in upper_in)) ;;
  run_command e
    (r_mapcalc (resc_expression f rescaled_rast temp_mapcalc_rast
                  lower_in upper_in upper_out lower_out)) ;;
  ret tt.

(** Lines 139-188: the loop over [rgb_in]; the accumulator is
    [reclassified_rasters]. *)
Fixpoint rescale_all (lower_out upper_out : string) (rgb_in : list string)
         (reclassified_rasters : list string) : M (list string) :=
  match rgb_in with
  | [] => ret reclassified_rasters
  | rast :: rest =>
      let rescaled_rast := rescaled_name rast (suffix o) in
      (if Py.contains rescaled_rast reclassified_rasters then ret tt
       else rescale lower_out upper_out rast rescaled_rast) ;;
      rescale_all lower_out upper_out rest
        (reclassified_rasters ++ [rescaled_rast])
  end.

(** Lines 195-200: the scan for the duplicate; [dupl_index] is the last
    index whose value was seen before. *)
Fixpoint find_duplicate (l : list string) (idx : nat)
         (unique_rasters : list string) (dupl_index : option nat) : option nat :=
  match l with
  | [] => dupl_index
  | val :: l' =>
      if Py.contains val unique_rasters
      then find_duplicate l' (S idx) unique_rasters (Some idx)
      else find_duplicate l' (S idx) (unique_rasters ++ [val]) dupl_index
  end.

(** Lines 191-206: a raster used twice is copied. *)
Definition reconcile (reclassified_rasters : list string) : M (list string) :=
  if (Py.len_set reclassified_rasters =? 2)%nat then
    match find_duplicate reclassified_rasters 0 [] None with
    | None => lift (Raised TypeError)
    | Some dupl_index =>
        dupl_raster <- lift (item reclassified_rasters dupl_index) ;;
        let dupl_rast_copied := dupl_raster +:+ "_copied" in
        run_command e (g_copy (dupl_raster +:+ "," +:+ dupl_rast_copied)) ;;
        ret (<[dupl_index := dupl_rast_copied]> reclassified_rasters)
    end
  else ret reclassified_rasters.

(** Lines 103-210.  The value returned is the message printed at the
    end. *)
Definition main : M string :=
  v <- lift (validate o) ;;
  let '(rgb_in, (lower_out, upper_out)) := v in
  reclassified_rasters <- rescale_all lower_out upper_out rgb_in [] ;;
  members <- reconcile reclassified_rasters ;;
  run_command e (i_group (output o) members) ;;
  ret (msg_created (output o)).

(** Lines 95-100: [cleanup], run at exit over the rasters that exist
    then.  [grass.find_file] is membership in the store; a successful
    [g.remove] deletes the raster, a failing one raises. *)
Fixpoint cleanup (rm : list string) (rasters : gset string)
         (issued : list command) : result unit * (gset string * list command) :=
  match rm with
  | [] => (Ok tt, (rasters, issued))
  | rmrast :: rest =>
      if bool_decide (rmrast ∈ rasters) then
        match e issued (g_remove rmrast) with
        | Some _ =>
            cleanup rest (rasters ∖ {[rmrast]}) (issued ++ [g_remove rmrast])
        | None =>
            (Raised (CalledModuleError (g_remove rmrast)),
             (rasters, issued ++ [g_remove rmrast]))
        end
      else cleanup rest rasters issued
  end.

(** Lines 213-216: [main] from the empty [rm_rasters]. *)
Definition run_main : result string * state := main (mkState [] []).

(** The registered hook, applied to the rasters present at exit. *)
Definition at_exit (rasters : gset string)
  : result unit * (gset string * list command) :=
  let st := snd run_main in
  cleanup (rm_rasters st) rasters (log st).

End Script.

(** ** The expressions handed to [r.mapcalc]

    The script only builds text.  To speak about the values the two
    expressions denote, the text is read as a term: [show] prints a term
    with the spacing and the brackets of the script's templates, and
    [eval] gives a term its value at one cell.  The evaluator itself is
    external; in this module its arithmetic is taken over exact
    rationals, a division by zero has no value, and [round(x)] is
    [floor(x + 0.5)].  Module [Evaluator] below evaluates the same terms
    under any arithmetic. *)

Module Mapcalc.

Inductive expr : Type :=
| Atom (text : string)
| Paren (a : expr)
| Sub (a b : expr)
| Add (a b : expr)
| Mul (a b : expr)
| Div (a b : expr)
| Le (a b : expr)
| Ge (a b : expr)
| If (c t e : expr)
| Round (a : expr).

Fixpoint show (x : expr) : string :=
  match x with
  | Atom text => text
  | Paren a => "(" +:+ show a +:+ ")"
  | Sub a b => show a +:+ " - " +:+ show b
  | Add a b => show a +:+ " + " +:+ show b
  | Mul a b => show a +:+ " * " +:+ show b
  | Div a b => show a +:+ "/" +:+ show b
  | Le a b => show a +:+ " <= " +:+ show b
  | Ge a b => show a +:+ " >= " +:+ show b
  | If c t e => "if(" +:+ show c +:+ ", " +:+ show t +:+ "," +:+ show e +:+ ")"
  | Round a => "round(" +:+ show a +:+ ")"
  end.

(** [out = x]. *)
Definition assign (out : string) (x : expr) : string :=
  out +:+ " = " +:+ show x.

(** Longest prefix of digits, as a number, and what follows. *)
Fixpoint int_part (acc : Z) (s : string) : Z * string :=
  match s with
  | EmptyString => (acc, EmptyString)
  | String c s' =>
      match Py.digit c with
      | Some v => int_part (10 * acc + v) s'
      | None => (acc, s)
      end
  end.

(** Digits after the point: numerator and power of ten. *)
Fixpoint frac_part (num : Z) (den : positive) (s : string)
  : option (Z * positive) :=
  match s with
  | EmptyString => Some (num, den)
  | String c s' =>
      match Py.digit c with
      | Some v => frac_part (10 * num + v) (10 * den) s'
      | None => None
      end
  end.

Definition unsigned_number (s : string) : option Q :=
  match s with
  | EmptyString => None
  | String c _ =>
      match Py.digit c with
      | None => None
      | Some _ =>
          match int_part 0 s with
          | (n, EmptyString) => Some (inject_Z n)
          | (n, String d fr) =>
              if Ascii.eqb d "."%char then
                match frac_part 0 1 fr with
                | Some (num, den) => Some (Qmake (n * Zpos den + num) den)
                | None => None
                end
              else None
          end
      end
  end.

(** A decimal literal such as [255], [-5] or [110.000000]. *)
Definition number (s : string) : option Q :=
  match s with
  | String c t =>
      if Ascii.eqb c "-"%char then Qopp <$> unsigned_number t
      else unsigned_number s
  | EmptyString => None
  end.

(** The cell values of the raster maps at the cell under
    consideration. *)
Definition cells : Type := string -> option Q.

Definition truth (b : bool) : Q := if b then 1%Q else 0%Q.

Definition Qge_bool (x y : Q) : bool := Qle_bool y x.

Definition bin (op : Q -> Q -> option Q) (x y : option Q) : option Q :=
  match x, y with
  | Some a, Some b => op a b
  | _, _ => None
  end.

Definition div (a b : Q) : option Q :=
  if Qeq_bool b 0 then None else Some (a / b)%Q.

Definition round (a : Q) : Q := inject_Z (Qfloor (a + (1 # 2))%Q).

Fixpoint eval (m : cells) (x : expr) : option Q :=
  match x with
  | Atom text =>
      match number text with
      | Some q => Some q
      | None => m text
      end
  | Paren a => eval m a
  | Sub a b => bin (fun p q => Some (p - q)%Q) (eval m a) (eval m b)
  | Add a b => bin (fun p q => Some (p + q)%Q) (eval m a) (eval m b)
  | Mul a b => bin (fun p q => Some (p * q)%Q) (eval m a) (eval m b)
  | Div a b => bin div (eval m a) (eval m b)
  | Le a b => bin (fun p q => Some (truth (Qle_bool p q))) (eval m a) (eval m b)
  | Ge a b => bin (fun p q => Some (truth (Qge_bool p q))) (eval m a) (eval m b)
  | If c t e =>
      match eval m c with
      | Some v => if Qeq_bool v 0 then eval m e else eval m t
      | None => None
      end
  | Round a => round <$> eval m a
  end.

(** The map [out] holds [v] from now on. *)
Definition store (out : string) (v : Q) (m : cells) : cells :=
  fun name => if bool_decide (name = out) then Some v else m name.

(** The term behind the clamp template. *)
Definition clamp (in_ lower_in upper_in : string) : expr :=
  If (Le (Atom in_) (Atom lower_in)) (Atom lower_in)
     (If (Ge (Atom in_) (Atom upper_in)) (Atom upper_in) (Atom in_)).

(** The term behind the rescale template. *)
Definition resc2 (in_ lower_in upper_in upper_out lower_out : string) : expr :=
  Add (Mul (Paren (Div (Paren (Sub (Atom in_) (Atom lower_in)))
                       (Paren (Sub (Atom upper_in) (Atom lower_in)))))
           (Atom upper_out))
      (Atom lower_out).

Definition resc (f : bool) (in_ lower_in upper_in upper_out lower_out : string)
  : expr :=
  let x := resc2 in_ lower_in upper_in upper_out lower_out in
  if f then x else Round x.

(** The value the two commands of a band leave in the rescaled raster
    at a cell, from the cell values [m] before them. *)
Definition rescaled_cell (f : bool) (m : cells) (rast temp lower_in upper_in
                          upper_out lower_out : string) : option Q :=
  match eval m (clamp rast lower_in upper_in) with
  | Some v => eval (store temp v m) (resc f temp lower_in upper_in upper_out lower_out)
  | None => None
  end.

End Mapcalc.

(** ** The expressions under any arithmetic

    [r.mapcalc] is not part of this repository, and its numbers are C
    integers and doubles, not rationals.  What the script's two
    expressions compute is therefore also stated for an evaluator whose
    arithmetic is a parameter: the terms and their shape come from the
    script, the operations on numbers from whoever evaluates them.  A
    cell without a value (a null cell, a division by zero, a result out
    of range) is [None]. *)

Module Evaluator.

Record arith : Type := mkArith {
  num : Type;
  (** how a text reads as a constant, if it is one *)
  literal : string -> option num;
  sub : num -> num -> option num;
  add : num -> num -> option num;
  mul : num -> num -> option num;
  div : num -> num -> option num;
  (** the outcome of [<=] and [>=], a number itself *)
  le : num -> num -> num;
  ge : num -> num -> num;
  (** whether [if] takes a number for true *)
  nonzero : num -> bool;
  round : num -> option num
}.

Definition cells (A : arith) : Type := string -> option (num A).

Definition bin {A : arith} (op : num A -> num A -> option (num A))
           (x y : option (num A)) : option (num A) :=
  match x, y with
  | Some p, Some q => op p q
  | _, _ => None
  end.

Fixpoint eval (A : arith) (m : cells A) (x : Mapcalc.expr) : option (num A) :=
  match x with
  | Mapcalc.Atom text =>
      match literal A text with
      | Some v => Some v
      | None => m text
      end
  | Mapcalc.Paren a => eval A m a
  | Mapcalc.Sub a b => bin (sub A) (eval A m a) (eval A m b)
  | Mapcalc.Add a b => bin (add A) (eval A m a) (eval A m b)
  | Mapcalc.Mul a b => bin (mul A) (eval A m a) (eval A m b)
  | Mapcalc.Div a b => bin (div A) (eval A m a) (eval A m b)
  | Mapcalc.Le a b => bin (fun p q => Some (le A p q)) (eval A m a) (eval A m b)
  | Mapcalc.Ge a b => bin (fun p q => Some (ge A p q)) (eval A m a) (eval A m b)
  | Mapcalc.If c t e =>
      match eval A m c with
      | Some v => if nonzero A v then eval A m t else eval A m e
      | None => None
      end
  | Mapcalc.Round a =>
      match eval A m a with
      | Some v => round A v
      | None => None
      end
  end.

(** The command [out = x] at a cell: the map [out] holds the value of
    [x] from now on, the other maps are as before. *)
Definition run {A : arith} (out : string) (x : Mapcalc.expr) (m : cells A)
  : cells A :=
  fun name => if bool_decide (name = out) then eval A m x else m name.

(** The cells where only [rast] has a value. *)
Definition only {A : arith} (rast : string) (v : num A) : cells A :=
  fun name => if bool_decide (name = rast) then Some v else None.

(** [p <= q] holds for the arithmetic. *)
Definition holds_le (A : arith) (p q : num A) : Prop :=
  nonzero A (le A p q) = true.

(** The comparisons of [A] are those of a total order. *)
Record ordered (A : arith) : Prop := mkOrdered {
  ord_flip : forall p q, nonzero A (ge A p q) = nonzero A (le A q p);
  ord_refl : forall p, holds_le A p p;
  ord_total : forall p q, nonzero A (le A p q) = false -> holds_le A q p;
  ord_trans : forall p q r, holds_le A p q -> holds_le A q r -> holds_le A p r
}.


(** The clamp of [x] by the two tests, in the order of the text. *)
Definition clamped (A : arith) (x a b : num A) : num A :=
  if nonzero A (le A x a) then a
  else if nonzero A (ge A x b) then b else x.

(** The linear formula on numbers, operation by operation. *)
Definition scaled (A : arith) (c a b u l : num A) : option (num A) :=
  bin (add A)
    (bin (mul A) (bin (div A) (sub A c a) (sub A b a)) (Some u))
    (Some l).

(** The value of the rescale expression on numbers: the linear formula,
    rounded unless the flag [f] is set. *)
Definition rescaled (A : arith) (f : bool) (c a b u l : num A) : option (num A) :=
  match scaled A c a b u l with
  | Some s => if f then Some s else round A s
  | None => None
  end.


(** The exact rationals, with [round x] the floor of [x + 1/2]. *)
Definition exact : arith :=
  mkArith Q Mapcalc.number
    (fun p q => Some (p - q)%Q)
    (fun p q => Some (p + q)%Q)
    (fun p q => Some (p * q)%Q)
    Mapcalc.div
    (fun p q => Mapcalc.truth (Qle_bool p q))
    (fun p q => Mapcalc.truth (Mapcalc.Qge_bool p q))
    (fun v => negb (Qeq_bool v 0))
    (fun v => Some (Mapcalc.round v)).

(** An integer as a double; exact below [2^53]. *)
Definition of_Z (z : Z) : float :=
  match z with
  | Z0 => PrimFloat.zero
  | Zpos _ => PrimFloat.of_uint63 (Uint63.of_Z z)
  | Zneg p => PrimFloat.opp (PrimFloat.of_uint63 (Uint63.of_Z (Zpos p)))
  end.

Definition finite (x : float) : option float :=
  if PrimFloat.is_finite x then Some x else None.

(** The largest integer not above a finite double. *)
Definition floor (x : float) : option Z :=
  match Prim2SF x with
  | S754_zero _ => Some 0
  | S754_finite s m e =>
      let v := if s then Zneg m else Zpos m in
      Some (if 0 <=? e then Z.shiftl v e else Z.shiftr v (- e))
  | _ => None
  end.

Definition half : float := PrimFloat.div (of_Z 1) (of_Z 2).

(** A decimal literal as the nearest double, for literals whose digits
    stay below [2^53]: numerator and power of ten are then exact and the
    quotient is rounded once. *)
Definition literal64 (s : string) : option float :=
  match Mapcalc.number s with
  | Some (Qmake n d) =>
      if (Z.abs n <? 2 ^ 53) && (Zpos d <? 2 ^ 53)
      then Some (PrimFloat.div (of_Z n) (of_Z (Zpos d)))
      else None
  | None => None
  end.

Definition truth64 (b : bool) : float := if b then of_Z 1 else of_Z 0.

(** IEEE binary64 with rounding to nearest, as C's [double]; a result
    that is not finite is no value, a division by zero has none, and
    [round x] is the floor of [x + 0.5], kept when it is a 32-bit
    integer. *)
Definition binary64 : arith :=
  mkArith float literal64
    (fun p q => finite (PrimFloat.sub p q))
    (fun p q => finite (PrimFloat.add p q))
    (fun p q => finite (PrimFloat.mul p q))
    (fun p q => if PrimFloat.is_zero q then None else finite (PrimFloat.div p q))
    (fun p q => truth64 (PrimFloat.leb p q))
    (fun p q => truth64 (PrimFloat.leb q p))
    (fun v => negb (PrimFloat.is_zero v))
    (fun v =>
       match floor (PrimFloat.add v half) with
       | Some n =>
           if (- 2 ^ 31 <? n) && (n <? 2 ^ 31) then Some (of_Z n) else None
       | None => None
       end).

End Evaluator.

(** An engine that accepts every command and reports the percentiles
    10 and 110 for every raster; used to run the script on examples. *)
Definition demo_engine : engine :=
  fun _ c =>
    match c with
    | r_quantile _ _ => Some ["0:2.000000:10.000000"; "1:98.000000:110.000000"]
    | _ => Some []
    end.

(** An engine whose every module fails. *)
Definition failing_engine : engine := fun _ _ => None.

Definition demo_options (red green blue output_range suffix : string) : options :=
  mkOptions red green blue "rgb" "2" "98" output_range suffix.

Global Instance command_eq_dec : EqDecision command.
Proof. solve_decision. Defined.

(** ** Vocabulary for the statements *)

(** The names of the three rescaled rasters. *)
Definition red_rescaled (o : options) : string := rescaled_name (red o) (suffix o).
Definition green_rescaled (o : options) : string := rescaled_name (green o) (suffix o).
Definition blue_rescaled (o : options) : string := rescaled_name (blue o) (suffix o).

(** [dupl_rast_copied] of line 202. *)
Definition copied (dupl_raster : string) : string := dupl_raster +:+ "_copied".

(** The final [reclassified_rasters] for the rescaled names [a], [b], [c]
    of red, green and blue. *)
Definition group_members (a b c : string) : list string :=
  if decide (a = b) then (if decide (b = c) then [a; b; c] else [a; copied a; c])
  else if decide (a = c) then [a; b; copied a]
  else if decide (b = c) then [a; b; copied b]
  else [a; b; c].

(** [st'] is [st] after more commands, all satisfying [P], and more
    registrations, all satisfying [Q]. *)
Definition grows (P : command -> Prop) (Q : string -> Prop) (st st' : state) : Prop :=
  exists cs rs,
    log st' = log st ++ cs /\ Forall P cs /\
    rm_rasters st' = rm_rasters st ++ rs /\ Forall Q rs.

(** [m] moves every state along [R], and a value it returns satisfies [V]. *)
Definition spec {A} (R : state -> state -> Prop) (V : A -> Prop) (m : M A) : Prop :=
  forall st, R st (snd (m st)) /\ forall a, fst (m st) = Ok a -> V a.

Definition is_group (c : command) : Prop :=
  match c with
  | i_group _ _ => True
  | _ => False
  end.

Definition is_quantile (c : command) : Prop :=
  match c with
  | r_quantile _ _ => True
  | _ => False
  end.

(** The name of a temporary raster of one of the bands. *)
Definition is_temp (o : options) (pid : Z) (name : string) : Prop :=
  exists rast, rast ∈ [red o; green o; blue o] /\ name = temp_name rast pid.

(** The percentile query of line 143 for a band. *)
Definition quantile_command (o : options) (rast : string) : command :=
  r_quantile rast (lower_percentile o +:+ "," +:+ upper_percentile o).

(** The text of a key after its last colon (lines 150-151). *)
Definition threshold (key : string) : string :=
  Py.last_item (Py.split ":" key).

(** Every percentile query in the log that was answered with at least
    two keys has the temporary raster of its band registered. *)
Definition queries_registered (e : engine) (pid : Z) (st : state) : Prop :=
  forall i rast percentiles k0 k1 more,
    log st !! i = Some (r_quantile rast percentiles) ->
    e (take i (log st)) (r_quantile rast percentiles) = Some (k0 :: k1 :: more) ->
    temp_name rast pid ∈ rm_rasters st.

(** An engine on which every [r.mapcalc] fails. *)
Definition mapcalc_failing_engine : engine :=
  fun _ c =>
    match c with
    | r_quantile _ _ => Some ["0:2.000000:10.000000"; "1:98.000000:110.000000"]
    | r_mapcalc _ => None
    | _ => Some []
    end.

(** An engine that reports the same value for both percentiles. *)
Definition flat_engine : engine :=
  fun _ c =>
    match c with
    | r_quantile _ _ => Some ["0:2.000000:7.000000"; "1:98.000000:7.000000"]
    | _ => Some []
    end.

(** An engine whose percentile output is not numeric. *)
Definition junk_engine : engine :=
  fun _ c =>
    match c with
    | r_quantile _ _ => Some ["nan"; "x:y:oops"]
    | _ => Some []
    end.

(** [queries_registered] survives from [st] to [st']. *)
Definition keeps_registered (e : engine) (pid : Z) (st st' : state) : Prop :=
  queries_registered e pid st -> queries_registered e pid st'.

(** The cells of a region where only [rast] has a value. *)
Definition only_cell (rast : string) (v : Q) : Mapcalc.cells :=
  Mapcalc.store rast v (fun _ => None).

(** The value of the linear map of line 168-171 on numbers. *)
Definition linear (c a b u l : Q) : Q := ((c - a) / (b - a) * u + l)%Q.

(** ** Vocabulary for the outcomes of a run *)

(** The last command was a percentile query answered with fewer than two
    keys. *)
Definition answered_short (e : engine) (st : state) : Prop :=
  exists history rast percentiles keys,
    log st = history ++ [r_quantile rast percentiles] /\
    e history (r_quantile rast percentiles) = Some keys /\
    (length keys < 2)%nat.

(** The last command was [c], and the engine failed on it. *)
Definition refused_last (e : engine) (c : command) (st : state) : Prop :=
  exists history, log st = history ++ [c] /\ e history c = None.

(** An outcome that is not normal is an exception raised by the command
    issued last. *)
Definition raised_as_issued (e : engine) {A} (x : result A * state) : Prop :=
  match fst x with
  | Ok _ => True
  | Fatal _ => False
  | Raised IndexError => answered_short e (snd x)
  | Raised (CalledModuleError c) => refused_last e c (snd x)
  | Raised _ => False
  end.

Definition steps_safely (e : engine) {A} (m : M A) : Prop :=
  forall st, raised_as_issued e (m st).

(** An engine on which no module fails and every percentile query
    answers with at least two keys. *)
Definition well_behaved (e : engine) : Prop :=
  (forall history c, e history c <> None) /\
  (forall history rast percentiles keys,
     e history (r_quantile rast percentiles) = Some keys ->
     (2 <= length keys)%nat).

(** The bands the loop of lines 139-188 works on: those whose rescaled
    name is not yet in [reclassified_rasters]. *)
Fixpoint fresh_bands (suffix : string) (rgb_in reclassified_rasters : list string)
  : list string :=
  match rgb_in with
  | [] => []
  | rast :: rest =>
      (if Py.contains (rescaled_name rast suffix) reclassified_rasters
       then [] else [rast]) ++
      fresh_bands suffix rest (reclassified_rasters ++ [rescaled_name rast suffix])
  end.

Definition is_mapcalc (c : command) : Prop :=
  match c with
  | r_mapcalc _ => True
  | _ => False
  end.

(** A character that can occur in a decimal literal. *)
Definition numeric_char (c : ascii) : Prop :=
  Py.digit c <> None \/ c = "."%char \/ c = "-"%char.

(** * Properties *)

(** Case analysis on the first decision in the goal. *)
Ltac split_decide :=
  match goal with
  | |- context [decide ?P] => destruct (decide P)
  | |- context [decide_rel ?R ?x ?y] => destruct (decide_rel R x y)
  end.

(** ** Strings *)

Lemma append_cons (c : ascii) (a b : string) :
  String c a +:+ b = String c (a +:+ b).
Proof. reflexivity. Qed.

Lemma append_nil_l (b : string) : EmptyString +:+ b = b.
Proof. reflexivity. Qed.

Lemma list_of_append (a b : string) :
  String.list_ascii_of_string (a +:+ b)
  = String.list_ascii_of_string a ++ String.list_ascii_of_string b.
Proof.
  induction a as [|c a IH]; [done |].
  rewrite append_cons. simpl. by rewrite IH.
Qed.

Lemma list_of_string_inj (a b : string) :
  String.list_ascii_of_string a = String.list_ascii_of_string b -> a = b.
Proof.
  intros H.
  rewrite <- (String.string_of_list_ascii_of_string a),
          <- (String.string_of_list_ascii_of_string b).
  by rewrite H.
Qed.

Lemma append_assoc (a b c : string) : (a +:+ b) +:+ c = a +:+ (b +:+ c).
Proof.
  induction a as [|x a IH]; [done |].
  by rewrite !append_cons, IH.
Qed.

Lemma append_inv_tail (a b t : string) : a +:+ t = b +:+ t -> a = b.
Proof.
  intros H. apply list_of_string_inj.
  apply (f_equal String.list_ascii_of_string) in H.
  rewrite !list_of_append in H. by apply app_inv_tail in H.
Qed.

Lemma length_append (a b : string) :
  String.length (a +:+ b) = (String.length a + String.length b)%nat.
Proof.
  induction a as [|x a IH]; [done |].
  rewrite append_cons. simpl. by rewrite IH.
Qed.

Lemma append_nonempty_neq (a t : string) : t <> EmptyString -> a <> a +:+ t.
Proof.
  intros Ht H. apply (f_equal String.length) in H.
  rewrite length_append in H. destruct t; [done | simpl in H; lia].
Qed.

(** Equality of two texts built from the same pieces. *)
Ltac string_eq :=
  apply list_of_string_inj; repeat rewrite list_of_append;
  repeat first [rewrite <- app_assoc | progress simpl];
  rewrite ?app_nil_r; reflexivity.

Lemma rescaled_name_inj (a b sfx : string) :
  rescaled_name a sfx = rescaled_name b sfx -> a = b.
Proof. unfold rescaled_name. apply append_inv_tail. Qed.

(** ** Distinct band names *)

Lemma len_set_3 (a b c : string) :
  Py.len_set [a; b; c] =
  if decide (a = b) then (if decide (b = c) then 1 else 2)%nat
  else if decide (a = c) then 2%nat
  else if decide (b = c) then 2%nat else 3%nat.
Proof.
  unfold Py.len_set. simpl.
  repeat split_decide; simpl; try done; exfalso;
    repeat match goal with
           | H : context [_ ∈ _ :: _] |- _ => rewrite elem_of_cons in H
           | H : context [_ ∈ []] |- _ => rewrite elem_of_nil in H
           end; intuition congruence.
Qed.

Lemma len_set_lt_2 (a b c : string) :
  (Py.len_set [a; b; c] < 2)%nat <-> a = b /\ b = c.
Proof.
  rewrite len_set_3. repeat split_decide; split; intros; try lia; intuition congruence.
Qed.

(** ** Validation *)

Lemma check_output_range_ok (tokens : list string) (lower_out upper_out : string) :
  check_output_range tokens = Ok (lower_out, upper_out) <->
  exists rest lo hi,
    tokens = lower_out :: upper_out :: rest /\
    Py.int lower_out = Some lo /\ Py.int upper_out = Some hi /\ lo <= hi.
Proof.
  unfold check_output_range, item, to_int.
  destruct tokens as [|t0 [|t1 rest]]; simpl.
  - split; [done | by intros (? & ? & ? & ? & _)].
  - split; [done | by intros (? & ? & ? & ? & _)].
  - destruct (Py.int t0) as [lo|] eqn:E0; simpl.
    + destruct (Py.int t1) as [hi|] eqn:E1; simpl.
      * destruct (hi <? lo) eqn:Hlt; simpl.
        -- apply Z.ltb_lt in Hlt. split; [done |].
           intros (? & lo' & hi' & [= <- <- <-] & H0 & H1 & Hle).
           rewrite E0 in H0. rewrite E1 in H1. simplify_eq. lia.
        -- apply Z.ltb_ge in Hlt. split.
           ++ intros [= <- <-]. by exists rest, lo, hi.
           ++ by intros (? & ? & ? & [= <- <- <-] & _).
      * split; [done |].
        intros (? & ? & ? & [= <- <- <-] & _ & H1 & _). by rewrite E1 in H1.
    + split; [done |].
      intros (? & ? & ? & [= <- <- <-] & H0 & _). by rewrite E0 in H0.
Qed.

Lemma check_output_range_never_raises (tokens : list string) (ex : exn) :
  check_output_range tokens <> Raised ex.
Proof.
  unfold check_output_range, item, to_int.
  destruct tokens as [|t0 [|t1 rest]]; simpl; try done.
  destruct (Py.int t0); simpl; try done.
  destruct (Py.int t1); simpl; try done.
  by destruct (_ <? _).
Qed.

(** C3 (as amended).  For an ASCII [output_range] and at least two
    distinct bands, [main] gets past its validation exactly when the
    option splits on [","] into at least two tokens of which the first
    two are accepted by [int()] and the second value is not smaller than
    the first; tokens after the second are ignored.  In every other case
    the run ends in [grass.fatal], never in an uncaught exception:
    ["255,0"] is refused with a message citing 255 and 0, ["abc,100"]
    with the message about the expected format. *)
Theorem output_range_validation (o : options) :
  Py.is_ascii (output_range o) = true ->
  (forall lower_out upper_out,
     validate o = Ok ([red o; green o; blue o], (lower_out, upper_out)) <->
     (2 <= Py.len_set [red o; green o; blue o])%nat /\
     exists rest lo hi,
       Py.split "," (output_range o) = lower_out :: upper_out :: rest /\
       Py.int lower_out = Some lo /\ Py.int upper_out = Some hi /\ lo <= hi) /\
  (forall ex, validate o <> Raised ex) /\
  ((2 <= Py.len_set [red o; green o; blue o])%nat -> output_range o = "255,0" ->
   validate o =
   Fatal "First value of output_range (255) is larger than second value (0)") /\
  ((2 <= Py.len_set [red o; green o; blue o])%nat -> output_range o = "abc,100" ->
   validate o =
   Fatal ("Parameter output_range must be in format <min,max> where min and max "
          +:+ "are integer values")).
Proof.
  intros _. unfold validate.
  split; [| split; [| split]].
  - intros lower_out upper_out. split.
    + destruct (_ <? 2)%nat eqn:Hb; [done |].
      apply Nat.ltb_ge in Hb.
      destruct (check_output_range _) as [[a b]| |] eqn:Hc; simpl in *; try done.
      intros [= <- <-]. split; [done |]. by apply check_output_range_ok.
    + intros [Hb Hr].
      apply Nat.ltb_ge in Hb. rewrite Hb.
      apply check_output_range_ok in Hr. by rewrite Hr.
  - intros ex. destruct (_ <? 2)%nat; [done |].
    pose proof (check_output_range_never_raises
                  (Py.split "," (output_range o))) as Hn.
    destruct (check_output_range _) as [[a b]| |]; simpl; try done.
    intros [= <-]. by eapply Hn.
  - intros Hb ->. apply Nat.ltb_ge in Hb. rewrite Hb. by vm_compute.
  - intros Hb ->. apply Nat.ltb_ge in Hb. rewrite Hb. by vm_compute.
Qed.

Lemma output_range_validation_witness :
  validate (demo_options "r" "g" "b" " 0,+2_55" "s")
  = Ok (["r"; "g"; "b"], (" 0", "+2_55")).
Proof.
  apply (proj1 (output_range_validation
                  (demo_options "r" "g" "b" " 0,+2_55" "s") eq_refl)).
  split; [vm_compute; lia |].
  exists [], 0, 255. repeat split; vm_compute; congruence.
Defined.

(** C3, as the claim has it, fails: ["0,255,7"] splits into three tokens
    and is accepted. *)
Lemma three_tokens_accepted :
  Py.split "," "0,255,7" = ["0"; "255"; "7"] /\
  validate (demo_options "r" "g" "b" "0,255,7" "reclassified")
  = Ok (["r"; "g"; "b"], ("0", "255")) /\
  fst (run_main demo_engine (demo_options "r" "g" "b" "0,255,7" "reclassified")
         false 4242)
  = Ok "Created output group <rgb>".
Proof. repeat split; vm_compute; reflexivity. Qed.

(** C6.  When fewer than two of the three band names are distinct, that
    is when the three are equal, the run ends with the fatal message
    about the input rasters; no command has been issued and nothing has
    been registered, so the hook at exit finds nothing to do either. *)
Theorem equal_bands_rejected_first (e : engine) (o : options) (f : bool) (pid : Z)
        (rasters : gset string) :
  (Py.len_set [red o; green o; blue o] < 2)%nat \/
  (red o = green o /\ green o = blue o) ->
  run_main e o f pid = (Fatal msg_bands, mkState [] []) /\
  at_exit e o f pid rasters = (Ok tt, (rasters, [])).
Proof.
  intros H.
  assert (Hlt : (Py.len_set [red o; green o; blue o] < 2)%nat).
  { destruct H as [H|H]; [done | by apply len_set_lt_2]. }
  assert (Hrun : run_main e o f pid = (Fatal msg_bands, mkState [] [])).
  { unfold run_main, main, bind, lift, validate.
    apply Nat.ltb_lt in Hlt. by rewrite Hlt. }
  split; [done |].
  unfold at_exit. by rewrite Hrun.
Qed.

Lemma equal_bands_rejected_first_witness :
  run_main demo_engine (demo_options "b4" "b4" "b4" "0,255" "reclassified")
    false 4242
  = (Fatal msg_bands, mkState [] []) /\
  at_exit demo_engine (demo_options "b4" "b4" "b4" "0,255" "reclassified")
    false 4242 {["b4"]}
  = (Ok tt, ({["b4"]}, [])).
Proof.
  apply (equal_bands_rejected_first demo_engine
           (demo_options "b4" "b4" "b4" "0,255" "reclassified") false 4242 {["b4"]}).
  right. split; reflexivity.
Defined.

(** ** Reasoning about the script's computations *)

Section Specs.

Context (R : relation state) `{!PreOrder R}.

Lemma spec_ret {A} (V : A -> Prop) (a : A) : V a -> spec R V (ret a).
Proof. intros Ha st. split; [reflexivity |]. by intros ? [= <-]. Qed.

Lemma spec_lift {A} (V : A -> Prop) (r : result A) :
  (forall a, r = Ok a -> V a) -> spec R V (lift r).
Proof. intros Hr st. split; [reflexivity | done]. Qed.

Lemma spec_bind {A B} (V : A -> Prop) (W : B -> Prop) (m : M A) (k : A -> M B) :
  spec R V m -> (forall a, V a -> spec R W (k a)) -> spec R W (bind m k).
Proof.
  intros Hm Hk st. unfold bind.
  destruct (Hm st) as [HR HV].
  destruct (m st) as [[a|msg|ex] st'] eqn:E; simpl in *; [| done | done].
  destruct (Hk a (HV a eq_refl) st') as [HR' HV'].
  split; [by etrans | done].
Qed.

Lemma spec_bind_ok {A B} (W : B -> Prop) (a : A) (k : A -> M B) :
  spec R W (k a) -> spec R W (bind (lift (Ok a)) k).
Proof. intros Hk st. exact (Hk st). Qed.

Lemma spec_weaken {A} (V W : A -> Prop) (m : M A) :
  spec R V m -> (forall a, V a -> W a) -> spec R W m.
Proof. intros Hm HVW st. destruct (Hm st) as [HR HV]. split; auto. Qed.

End Specs.

(** Membership in short explicit lists, as equalities. *)
Ltac list_members :=
  repeat match goal with
         | H : context [_ ∈ _ :: _] |- _ => rewrite elem_of_cons in H
         | H : context [_ ∈ []] |- _ => rewrite elem_of_nil in H
         | |- context [_ ∈ _ :: _] => rewrite elem_of_cons
         | |- context [_ ∈ []] => rewrite elem_of_nil
         end.

Lemma find_duplicate_3 (a b c : string) :
  find_duplicate [a; b; c] 0 [] None =
  if decide (b = c) then Some 2%nat
  else if decide (a = c) then Some 2%nat
  else if decide (a = b) then Some 1%nat
  else None.
Proof.
  unfold find_duplicate, Py.contains. simpl.
  repeat case_bool_decide; repeat split_decide; try done; exfalso;
    list_members; intuition congruence.
Qed.

(** [main] moves the state along any preorder that its three kinds of
    steps respect: the work on one band, the copy, the grouping. *)
Section MainSpec.

Context (e : engine) (o : options) (f : bool) (pid : Z).
Context (R : relation state) `{!PreOrder R}.
Hypothesis R_rescale :
  forall lower_out upper_out rast rescaled_rast,
    rast ∈ [red o; green o; blue o] ->
    spec R (fun _ => True) (rescale e o f pid lower_out upper_out rast rescaled_rast).
Hypothesis R_copy :
  forall raster, spec R (fun _ => True) (run_command e (g_copy raster)).
Hypothesis R_group :
  (2 <= Py.len_set [red o; green o; blue o])%nat ->
  spec R (fun _ => True)
    (run_command e
       (i_group (output o)
          (group_members (red_rescaled o) (green_rescaled o) (blue_rescaled o)))).

Lemma rescale_all_spec (lower_out upper_out : string) (rgb_in acc : list string) :
  rgb_in ⊆ [red o; green o; blue o] ->
  spec R
    (fun l => l = acc ++ map (fun rast => rescaled_name rast (suffix o)) rgb_in)
    (rescale_all e o f pid lower_out upper_out rgb_in acc).
Proof.
  revert acc. induction rgb_in as [|rast rest IH]; intros acc Hsub; simpl.
  - apply (spec_ret R). by rewrite app_nil_r.
  - eapply (spec_bind R) with (V := fun _ => True); [|].
    + destruct (Py.contains _ _); [by apply (spec_ret R) |].
      apply R_rescale. apply Hsub. by left.
    + intros _ _. eapply (spec_weaken R).
      * apply IH. intros x Hx. apply Hsub. by right.
      * intros l ->. by rewrite <- app_assoc.
Qed.

Lemma reconcile_spec (a b c : string) :
  spec R (fun l => l = group_members a b c) (reconcile e [a; b; c]).
Proof.
  unfold reconcile, group_members. rewrite len_set_3, find_duplicate_3.
  repeat split_decide; subst; simpl; try (by apply (spec_ret R)); try congruence;
    (unfold item; simpl; apply (spec_bind_ok R);
     eapply (spec_bind R); [apply R_copy |];
     intros _ _; by apply (spec_ret R)).
Qed.

Lemma main_spec : spec R (fun _ => True) (main e o f pid).
Proof.
  unfold main.
  eapply (spec_bind R) with
    (V := fun v => (2 <= Py.len_set [red o; green o; blue o])%nat /\
                   fst v = [red o; green o; blue o]); [|].
  - apply (spec_lift R). intros [rgb [lo up]]. unfold validate.
    destruct (_ <? 2)%nat eqn:Hb; [done |]. apply Nat.ltb_ge in Hb.
    destruct (check_output_range _) as [[x y]| |]; simpl; try done.
    by intros [= <- <- <-].
  - intros [rgb [lo up]] [Hb Hrgb]. simpl in Hrgb. subst rgb.
    eapply (spec_bind R); [by apply rescale_all_spec |].
    intros l ->. simpl.
    eapply (spec_bind R); [apply reconcile_spec |].
    intros members ->.
    eapply (spec_bind R); [by apply R_group |].
    intros _ _. by apply (spec_ret R).
Qed.

End MainSpec.

(** The first instance: the commands issued satisfy [P], the names
    registered satisfy [Q]. *)
Section Grows.

Context (P : command -> Prop) (Q : string -> Prop).

Global Instance grows_preorder : PreOrder (grows P Q).
Proof.
  split.
  - intros st. exists [], []. by rewrite !app_nil_r.
  - intros st1 st2 st3 (cs & rs & Hl & HP & Hr & HQ) (cs' & rs' & Hl' & HP' & Hr' & HQ').
    exists (cs ++ cs'), (rs ++ rs').
    rewrite Hl', Hl, Hr', Hr, !app_assoc.
    repeat split; try done; by apply Forall_app.
Qed.

Lemma grows_register (name : string) :
  Q name -> spec (grows P Q) (fun _ => True) (register name).
Proof.
  intros Hn st. split; [| done].
  exists [], [name]. simpl. rewrite app_nil_r. repeat split; auto.
Qed.

Lemma grows_run_command (e : engine) (c : command) :
  P c -> spec (grows P Q) (fun _ => True) (run_command e c).
Proof.
  intros Hc st. split; [| done].
  exists [c], []. unfold run_command.
  destruct (e (log st) c); simpl; rewrite app_nil_r; repeat split; auto.
Qed.

Context (e : engine) (o : options) (f : bool) (pid : Z).
Hypothesis P_other : forall c, ~ is_group c -> P c.
Hypothesis P_group :
  (2 <= Py.len_set [red o; green o; blue o])%nat ->
  P (i_group (output o)
       (group_members (red_rescaled o) (green_rescaled o) (blue_rescaled o))).
Hypothesis Q_temp : forall name, is_temp o pid name -> Q name.

Lemma grows_rescale (lower_out upper_out rast rescaled_rast : string) :
  rast ∈ [red o; green o; blue o] ->
  spec (grows P Q) (fun _ => True)
    (rescale e o f pid lower_out upper_out rast rescaled_rast).
Proof.
  intros Hin. unfold rescale.
  eapply (spec_bind (grows P Q)); [apply grows_run_command; apply P_other; simpl; tauto |].
  intros vals _.
  eapply (spec_bind (grows P Q)); [by apply (spec_lift (grows P Q)) with (V := fun _ => True) |].
  intros k0 _.
  eapply (spec_bind (grows P Q)); [by apply (spec_lift (grows P Q)) with (V := fun _ => True) |].
  intros k1 _.
  eapply (spec_bind (grows P Q)); [apply grows_register; apply Q_temp; by exists rast |].
  intros _ _.
  eapply (spec_bind (grows P Q)); [apply grows_run_command; apply P_other; simpl; tauto |].
  intros _ _.
  eapply (spec_bind (grows P Q)); [apply grows_run_command; apply P_other; simpl; tauto |].
  intros _ _. by apply (spec_ret (grows P Q)).
Qed.

Lemma grows_main : spec (grows P Q) (fun _ => True) (main e o f pid).
Proof.
  apply (main_spec e o f pid (grows P Q)).
  - intros. by apply grows_rescale.
  - intros. apply grows_run_command, P_other. simpl. tauto.
  - intros. by apply grows_run_command, P_group.
Qed.

End Grows.

(** ** The members of the group *)

Lemma NoDup_3 (a b c : string) : NoDup [a; b; c] <-> a <> b /\ a <> c /\ b <> c.
Proof.
  rewrite !NoDup_cons. list_members. split.
  - intros (H1 & H2 & _). intuition congruence.
  - intros (H1 & H2 & H3). repeat split; try (intuition congruence).
    apply NoDup_nil_2.
Qed.

Lemma copied_neq (x : string) : x <> copied x.
Proof. by apply append_nonempty_neq. Qed.

Lemma rescaled_eq_iff (o : options) (a b : string) :
  rescaled_name a (suffix o) = rescaled_name b (suffix o) <-> a = b.
Proof. split; [apply rescaled_name_inj | by intros ->]. Qed.

Lemma members_red_green (a b c : string) :
  a = b -> b <> c -> group_members a b c = [a; copied a; c].
Proof. intros. unfold group_members. repeat split_decide; congruence. Qed.

Lemma members_red_blue (a b c : string) :
  a <> b -> a = c -> group_members a b c = [a; b; copied a].
Proof. intros. unfold group_members. repeat split_decide; congruence. Qed.

Lemma members_green_blue (a b c : string) :
  a <> b -> a <> c -> b = c -> group_members a b c = [a; b; copied b].
Proof. intros. unfold group_members. repeat split_decide; congruence. Qed.

Lemma members_distinct (a b c : string) :
  a <> b -> a <> c -> b <> c -> group_members a b c = [a; b; c].
Proof. intros. unfold group_members. repeat split_decide; congruence. Qed.

Lemma group_in_log (e : engine) (o : options) (f : bool) (pid : Z)
      (grp : string) (l : list string) :
  i_group grp l ∈ log (snd (run_main e o f pid)) ->
  grp = output o /\
  l = group_members (red_rescaled o) (green_rescaled o) (blue_rescaled o) /\
  (2 <= Py.len_set [red o; green o; blue o])%nat.
Proof.
  intros Hin.
  pose (P := fun c : command =>
               forall g m, c = i_group g m ->
                 g = output o /\
                 m = group_members (red_rescaled o) (green_rescaled o) (blue_rescaled o) /\
                 (2 <= Py.len_set [red o; green o; blue o])%nat).
  assert (Hspec : spec (grows P (fun _ => True)) (fun _ => True) (main e o f pid)).
  { apply grows_main.
    - intros c Hc g m ->. by destruct Hc.
    - intros Hb g m [= <- <-]. done.
    - done. }
  destruct (Hspec (mkState [] [])) as [(cs & rs & Hlog & HP & _) _].
  unfold run_main in Hin. rewrite Hlog in Hin. simpl in Hin.
  rewrite Forall_forall in HP. by apply (HP _ Hin).
Qed.

(** C2 (as amended).  Whenever the run reaches [i.group], the group is
    the requested one and receives three names.  With three distinct
    bands these are the three rescaled names, pairwise distinct, and no
    copy is involved.  When two bands coincide, the second occurrence of
    the repeated rescaled name is replaced by that name followed by
    [_copied]; the three members are then pairwise distinct exactly when
    the rescaled name of the remaining band differs from the name of the
    copy. *)
Theorem group_members_reconciled (e : engine) (o : options) (f : bool) (pid : Z)
        (grp : string) (l : list string) :
  i_group grp l ∈ log (snd (run_main e o f pid)) ->
  grp = output o /\ length l = 3%nat /\
  (red o = green o ->
   l = [red_rescaled o; copied (red_rescaled o); blue_rescaled o] /\
   (NoDup l <-> blue_rescaled o <> copied (red_rescaled o))) /\
  (red o <> green o -> red o = blue o ->
   l = [red_rescaled o; green_rescaled o; copied (red_rescaled o)] /\
   (NoDup l <-> green_rescaled o <> copied (red_rescaled o))) /\
  (red o <> green o -> red o <> blue o -> green o = blue o ->
   l = [red_rescaled o; green_rescaled o; copied (green_rescaled o)] /\
   (NoDup l <-> red_rescaled o <> copied (green_rescaled o))) /\
  (red o <> green o -> red o <> blue o -> green o <> blue o ->
   l = [red_rescaled o; green_rescaled o; blue_rescaled o] /\ NoDup l).
Proof.
  intros Hin. apply group_in_log in Hin as (-> & -> & Hb).
  rewrite len_set_3 in Hb.
  unfold red_rescaled, green_rescaled, blue_rescaled.
  set (r := rescaled_name (red o) (suffix o)).
  set (g := rescaled_name (green o) (suffix o)).
  set (b := rescaled_name (blue o) (suffix o)).
  assert (Hrg : r = g <-> red o = green o) by apply rescaled_eq_iff.
  assert (Hrb : r = b <-> red o = blue o) by apply rescaled_eq_iff.
  assert (Hgb : g = b <-> green o = blue o) by apply rescaled_eq_iff.
  pose proof (copied_neq r) as Hr. pose proof (copied_neq g) as Hg.
  split; [done |]. split.
  { unfold group_members. repeat split_decide; reflexivity. }
  split; [| split; [| split]].
  - intros E. assert (g <> b).
    { rewrite Hgb. intros E'. rewrite !decide_True in Hb by done. lia. }
    rewrite members_red_green by tauto.
    split; [done |]. rewrite NoDup_3. intuition congruence.
  - intros E1 E2. rewrite members_red_blue by tauto.
    split; [done |]. rewrite NoDup_3. intuition congruence.
  - intros E1 E2 E3. rewrite members_green_blue by tauto.
    split; [done |]. rewrite NoDup_3. intuition congruence.
  - intros E1 E2 E3. rewrite members_distinct by tauto.
    split; [done |]. rewrite NoDup_3. tauto.
Qed.

Lemma group_members_reconciled_witness :
  i_group "rgb" ["b4_s"; "b4_s_copied"; "b2_s"]
    ∈ log (snd (run_main demo_engine (demo_options "b4" "b4" "b2" "0,255" "s")
                  false 4242)) /\
  NoDup ["b4_s"; "b4_s_copied"; "b2_s"].
Proof.
  assert (Hin : i_group "rgb" ["b4_s"; "b4_s_copied"; "b2_s"]
                  ∈ log (snd (run_main demo_engine
                                (demo_options "b4" "b4" "b2" "0,255" "s")
                                false 4242))).
  { apply list_elem_of_lookup. exists 7%nat. vm_compute. reflexivity. }
  split; [exact Hin |].
  destruct (group_members_reconciled _ _ _ _ _ _ Hin)
    as (_ & _ & H & _).
  destruct (H eq_refl) as [_ Hnd]. apply Hnd. vm_compute. discriminate.
Defined.

(** C2, as the claim has it, fails: with red = green = [a], blue =
    [a_copied] and suffix [copied] the copy takes the name of the rescaled
    blue raster, and the group receives two distinct names. *)
Lemma copy_name_collision :
  validate (demo_options "a" "a" "a_copied" "0,255" "copied")
  = Ok (["a"; "a"; "a_copied"], ("0", "255")) /\
  last (log (snd (run_main demo_engine
                    (demo_options "a" "a" "a_copied" "0,255" "copied")
                    false 4242)))
  = Some (i_group "rgb" ["a_copied"; "a_copied_copied"; "a_copied_copied"]) /\
  ~ NoDup ["a_copied"; "a_copied_copied"; "a_copied_copied"].
Proof.
  split; [vm_compute; reflexivity |].
  split; [vm_compute; reflexivity |].
  rewrite NoDup_3. intros (_ & _ & H). by apply H.
Qed.

(** ** Cleanup at exit *)

(** Whatever the engine does, [cleanup] issues only [g.remove] for
    registered names and leaves every other raster in place. *)
Lemma cleanup_frame (e : engine) (rm : list string) (rasters : gset string)
      (issued : list command) :
  exists cs,
    snd (snd (cleanup e rm rasters issued)) = issued ++ cs /\
    Forall (fun c => exists name, c = g_remove name /\ name ∈ rm /\ name ∈ rasters) cs /\
    forall name, name ∈ rasters -> name ∉ rm ->
                 name ∈ fst (snd (cleanup e rm rasters issued)).
Proof.
  revert rasters issued.
  induction rm as [|rmrast rest IH]; intros rasters issued; simpl.
  - exists []. rewrite app_nil_r. by repeat split.
  - case_bool_decide as Hex.
    + destruct (e issued (g_remove rmrast)) as [keys|].
      * destruct (IH (rasters ∖ {[rmrast]}) (issued ++ [g_remove rmrast]))
          as (cs & Hlog & Hcs & Hkeep).
        exists (g_remove rmrast :: cs). rewrite Hlog, <- app_assoc.
        split; [done |]. split.
        -- constructor.
           ++ exists rmrast. repeat split; [by left | done].
           ++ eapply Forall_impl; [exact Hcs |].
              intros c (name & -> & Hn & Hr). exists name.
              repeat split; [by right | set_solver].
        -- intros name Hn Hrm. apply Hkeep; set_solver.
      * exists [g_remove rmrast]. simpl. split; [done |]. split.
        -- constructor; [| constructor].
           exists rmrast. repeat split; [by left | done].
        -- done.
    + destruct (IH rasters issued) as (cs & Hlog & Hcs & Hkeep).
      exists cs. split; [done |]. split.
      * eapply Forall_impl; [exact Hcs |].
        intros c (name & -> & Hn & Hr). exists name.
        repeat split; [by right | done].
      * intros name Hn Hrm. apply Hkeep; set_solver.
Qed.

(** When no [g.remove] fails, [cleanup] removes exactly the registered
    rasters that exist. *)
Lemma cleanup_exact (e : engine) (rm : list string) (rasters : gset string)
      (issued : list command) :
  (forall history name, e history (g_remove name) <> None) ->
  exists cs,
    cleanup e rm rasters issued
    = (Ok tt, (rasters ∖ list_to_set rm, issued ++ cs)) /\
    forall c, c ∈ cs <-> exists name, c = g_remove name /\ name ∈ rm /\ name ∈ rasters.
Proof.
  intros Hok. revert rasters issued.
  induction rm as [|rmrast rest IH]; intros rasters issued; simpl.
  - exists []. rewrite app_nil_r, difference_empty_L. split; [done |].
    intros c. split; [by intros ?%elem_of_nil |].
    by intros (? & _ & ?%elem_of_nil & _).
  - case_bool_decide as Hex.
    + destruct (e issued (g_remove rmrast)) as [keys|] eqn:He;
        [| by apply Hok in He].
      destruct (IH (rasters ∖ {[rmrast]}) (issued ++ [g_remove rmrast]))
        as (cs & -> & Hcs).
      exists (g_remove rmrast :: cs). rewrite <- app_assoc. split.
      * do 2 f_equal. set_solver.
      * intros c. rewrite elem_of_cons, Hcs. split.
        -- intros [-> | (name & -> & Hn & Hr)].
           ++ exists rmrast. repeat split; [by left | done].
           ++ exists name. repeat split; [by right | set_solver].
        -- intros (name & -> & Hn & Hr).
           apply elem_of_cons in Hn as [-> | Hn]; [by left |].
           destruct (decide (name = rmrast)) as [-> | Hne]; [by left |].
           right. exists name. repeat split; [done | set_solver].
    + destruct (IH rasters issued) as (cs & -> & Hcs).
      exists cs. split.
      * do 2 f_equal. set_solver.
      * intros c. rewrite Hcs. split.
        -- intros (name & -> & Hn & Hr). exists name.
           repeat split; [by right | done].
        -- intros (name & -> & Hn & Hr).
           apply elem_of_cons in Hn as [-> | Hn]; [done |].
           by exists name.
Qed.

Lemma registered_are_temporaries (e : engine) (o : options) (f : bool) (pid : Z) :
  Forall (is_temp o pid) (rm_rasters (snd (run_main e o f pid))).
Proof.
  assert (Hspec : spec (grows (fun _ => True) (is_temp o pid)) (fun _ => True)
                    (main e o f pid)).
  { by apply grows_main. }
  destruct (Hspec (mkState [] [])) as [(cs & rs & _ & _ & Hrm & HQ) _].
  unfold run_main. by rewrite Hrm.
Qed.

(** The decimal text of a process identifier ends in a digit, so no
    temporary name ends in the letter of [_copied]. *)
Lemma pretty_N_go_app (x : N) (s : string) :
  exists p, pretty_N_go x s = p +:+ s.
Proof.
  revert s. induction (N.lt_wf_0 x) as [x _ IH]. intros s.
  destruct (decide (x = 0)%N) as [-> | Hx].
  - exists EmptyString. by rewrite pretty_N_go_0.
  - rewrite pretty_N_go_step by lia.
    destruct (IH (x `div` 10)%N) with (s := String (pretty_N_char (x `mod` 10)) s)
      as [p Hp]; [apply N.div_lt; lia |].
    exists (p +:+ String (pretty_N_char (x `mod` 10)) EmptyString).
    by rewrite Hp, append_assoc.
Qed.

Lemma pretty_N_char_digit (x : N) : Py.digit (pretty_N_char x) <> None.
Proof. unfold pretty_N_char. by repeat case_match. Qed.

Lemma str_int_last (n : Z) :
  exists p d, Py.str_int n = p +:+ String d EmptyString /\ Py.digit d <> None.
Proof.
  assert (HN : forall x : N, exists p d,
               pretty x = p +:+ String d EmptyString /\ Py.digit d <> None).
  { intros x. unfold pretty, pretty_N. case_decide as Hx.
    - by exists EmptyString, "0"%char.
    - rewrite pretty_N_go_step by lia.
      destruct (pretty_N_go_app (x `div` 10)
                  (String (pretty_N_char (x `mod` 10)) EmptyString)) as [p Hp].
      exists p, (pretty_N_char (x `mod` 10)). split; [done |].
      apply pretty_N_char_digit. }
  unfold Py.str_int, pretty, pretty_Z. destruct n as [|x|x].
  - by exists EmptyString, "0"%char.
  - apply (HN (Npos x)).
  - destruct (HN (Npos x)) as (p & d & Hp & Hd).
    exists ("-" +:+ p), d. split; [| done].
    unfold pretty, pretty_positive. by rewrite Hp.
Qed.

Lemma append_last_inj (a b : string) (c d : ascii) :
  a +:+ String c EmptyString = b +:+ String d EmptyString -> c = d.
Proof.
  intros H. apply (f_equal String.list_ascii_of_string) in H.
  rewrite !list_of_append in H. simpl in H.
  by apply app_inj_tail in H as [_ ?].
Qed.

Lemma copied_not_temp (x rast : string) (pid : Z) : copied x <> temp_name rast pid.
Proof.
  unfold copied, temp_name.
  destruct (str_int_last pid) as (p & d & -> & Hd).
  change "_copied" with ("_copie" +:+ String "d"%char EmptyString).
  rewrite <- !append_assoc. intros H%append_last_inj. by subst d.
Qed.

(** C8 (as amended).  Only names of temporary rasters, [<band>_tmp_<pid>]
    for one of the three bands, are ever registered; the name of a copy
    never is.  The hook at exit issues nothing but [g.remove] for
    registered rasters that exist, so every raster whose name is not
    registered -- a rescaled raster whose name is not also the name of a
    temporary -- is still there afterwards, and so is the group, which
    is not a raster.  When no [g.remove] fails, what is removed is
    exactly the set of registered rasters that exist; registered names
    without a raster are skipped without a command. *)
Theorem cleanup_removes_temporaries (e : engine) (o : options) (f : bool) (pid : Z)
        (rasters : gset string) :
  Forall (is_temp o pid) (rm_rasters (snd (run_main e o f pid))) /\
  (forall x, copied x ∉ rm_rasters (snd (run_main e o f pid))) /\
  (exists cs,
     snd (snd (at_exit e o f pid rasters))
     = log (snd (run_main e o f pid)) ++ cs /\
     Forall (fun c => exists name,
                 c = g_remove name /\
                 name ∈ rm_rasters (snd (run_main e o f pid)) /\
                 name ∈ rasters) cs /\
     forall name,
       name ∈ rasters -> name ∉ rm_rasters (snd (run_main e o f pid)) ->
       name ∈ fst (snd (at_exit e o f pid rasters))) /\
  ((forall history name, e history (g_remove name) <> None) ->
   exists cs,
     at_exit e o f pid rasters
     = (Ok tt, (rasters ∖ list_to_set (rm_rasters (snd (run_main e o f pid))),
                log (snd (run_main e o f pid)) ++ cs)) /\
     forall c, c ∈ cs <->
               exists name,
                 c = g_remove name /\
                 name ∈ rm_rasters (snd (run_main e o f pid)) /\
                 name ∈ rasters).
Proof.
  pose proof (registered_are_temporaries e o f pid) as Htemp.
  split; [done |]. split; [| split].
  - intros x Hx. rewrite Forall_forall in Htemp.
    destruct (Htemp _ Hx) as (rast & _ & Heq). by apply copied_not_temp in Heq.
  - apply cleanup_frame.
  - intros Hok. by apply cleanup_exact.
Qed.

Lemma cleanup_removes_temporaries_witness :
  exists cs,
    at_exit demo_engine (demo_options "b4" "b3" "b2" "0,255" "s") false 4242
      {["b4"; "b4_tmp_4242"; "b4_s"; "b2_s"]}
    = (Ok tt,
       ({["b4"; "b4_tmp_4242"; "b4_s"; "b2_s"]}
          ∖ list_to_set (rm_rasters
                           (snd (run_main demo_engine
                                   (demo_options "b4" "b3" "b2" "0,255" "s")
                                   false 4242))),
        log (snd (run_main demo_engine (demo_options "b4" "b3" "b2" "0,255" "s")
                    false 4242)) ++ cs)) /\
    forall c, c ∈ cs <->
              exists name,
                c = g_remove name /\
                name ∈ rm_rasters
                         (snd (run_main demo_engine
                                 (demo_options "b4" "b3" "b2" "0,255" "s")
                                 false 4242)) /\
                name ∈ ({["b4"; "b4_tmp_4242"; "b4_s"; "b2_s"]} : gset string).
Proof.
  apply (cleanup_removes_temporaries demo_engine
           (demo_options "b4" "b3" "b2" "0,255" "s") false 4242
           {["b4"; "b4_tmp_4242"; "b4_s"; "b2_s"]}).
  intros history name. simpl. discriminate.
Defined.

(** C8, as the claim has it, fails: with red = [a_tmp], green = [a],
    suffix [123] and process 123 the rescaled red raster has the name of
    the temporary of green; it is a member of the group, it is
    registered, and the hook removes it. *)
Lemma rescaled_raster_removed :
  red_rescaled (demo_options "a_tmp" "a" "b" "0,255" "123") = "a_tmp_123" /\
  last (log (snd (run_main demo_engine
                    (demo_options "a_tmp" "a" "b" "0,255" "123") false 123)))
  = Some (i_group "rgb" ["a_tmp_123"; "a_123"; "b_123"]) /\
  rm_rasters (snd (run_main demo_engine
                     (demo_options "a_tmp" "a" "b" "0,255" "123") false 123))
  = ["a_tmp_tmp_123"; "a_tmp_123"; "b_tmp_123"] /\
  "a_tmp_123" ∉ fst (snd (at_exit demo_engine
                            (demo_options "a_tmp" "a" "b" "0,255" "123") false 123
                            {["a_tmp_123"; "a_123"; "b_123"]})).
Proof.
  split; [vm_compute; reflexivity |].
  split; [vm_compute; reflexivity |].
  split; [vm_compute; reflexivity |].
  assert (Hrm : rm_rasters (snd (run_main demo_engine
                     (demo_options "a_tmp" "a" "b" "0,255" "123") false 123))
                = ["a_tmp_tmp_123"; "a_tmp_123"; "b_tmp_123"])
    by (vm_compute; reflexivity).
  unfold at_exit. cbv zeta. rewrite Hrm.
  destruct (cleanup_exact demo_engine
              ["a_tmp_tmp_123"; "a_tmp_123"; "b_tmp_123"]
              {["a_tmp_123"; "a_123"; "b_123"]}
              (log (snd (run_main demo_engine
                           (demo_options "a_tmp" "a" "b" "0,255" "123")
                           false 123))))
    as (cs & -> & _); [by intros |].
  simpl. set_solver.
Qed.

(** ** The work on one band *)

(** What [rescale] does once the percentile query has answered with two
    keys, by the answers of the engine to the two [r.mapcalc]. *)
Lemma rescale_run (e : engine) (o : options) (f : bool) (pid : Z)
      (lower_out upper_out rast rescaled_rast : string) (st : state)
      (k0 k1 : string) (more : list string) :
  e (log st) (quantile_command o rast) = Some (k0 :: k1 :: more) ->
  rescale e o f pid lower_out upper_out rast rescaled_rast st =
  let q := quantile_command o rast in
  let temp := temp_name rast pid in
  let c1 := r_mapcalc (clamp_expression temp rast (threshold k0) (threshold k1)) in
  let c2 := r_mapcalc (resc_expression f rescaled_rast temp
                         (threshold k0) (threshold k1) upper_out lower_out) in
  match e (log st ++ [q]) c1 with
  | None =>
      (Raised (CalledModuleError c1),
       mkState (rm_rasters st ++ [temp]) (log st ++ [q; c1]))
  | Some _ =>
      match e (log st ++ [q; c1]) c2 with
      | None =>
          (Raised (CalledModuleError c2),
           mkState (rm_rasters st ++ [temp]) (log st ++ [q; c1; c2]))
      | Some _ =>
          (Ok tt, mkState (rm_rasters st ++ [temp]) (log st ++ [q; c1; c2]))
      end
  end.
Proof.
  intros Hq. unfold quantile_command in *.
  unfold rescale, bind, run_command, lift, item, register, ret, threshold.
  cbv zeta. simpl. rewrite Hq. simpl.
  destruct (e (log st ++ _) _); simpl; [| by rewrite <- app_assoc].
  rewrite <- !app_assoc. simpl.
  destruct (e (log st ++ [_; _]) _); reflexivity.
Qed.

(** Without two keys from the percentile query, [rescale] stops after
    that command and registers nothing. *)
Lemma rescale_short (e : engine) (o : options) (f : bool) (pid : Z)
      (lower_out upper_out rast rescaled_rast : string) (st : state) :
  (forall k0 k1 more,
     e (log st) (quantile_command o rast) <> Some (k0 :: k1 :: more)) ->
  exists r,
    rescale e o f pid lower_out upper_out rast rescaled_rast st
    = (r, mkState (rm_rasters st) (log st ++ [quantile_command o rast])).
Proof.
  intros Hq. unfold quantile_command in *.
  unfold rescale, bind, run_command, lift, item.
  destruct (e (log st) _) as [[|k0 [|k1 more]]|]; simpl; eauto.
  by destruct (Hq k0 k1 more).
Qed.

(** ** Thresholds *)

Lemma split_nonempty (sep : ascii) (s : string) : Py.split sep s <> [].
Proof.
  destruct s as [|c s]; simpl; [done |].
  destruct (Ascii.eqb c sep); [done |]. by destruct (Py.split sep s).
Qed.

Lemma join_split (sep : ascii) (s : string) :
  String.concat (String sep EmptyString) (Py.split sep s) = s.
Proof.
  induction s as [|c s IH]; simpl; [done |].
  pose proof (split_nonempty sep s) as Hne.
  destruct (Ascii.eqb_spec c sep) as [-> | Hc].
  - destruct (Py.split sep s) as [|w ws]; [done |].
    change (String.concat (String sep EmptyString) (EmptyString :: w :: ws))
      with (String sep (String.concat (String sep EmptyString) (w :: ws))).
    by rewrite IH.
  - destruct (Py.split sep s) as [|w ws]; [done |].
    destruct ws as [|w' ws]; simpl in *; by rewrite <- IH.
Qed.

Lemma split_no_sep (sep : ascii) (s : string) :
  Forall (fun w => sep ∉ String.list_ascii_of_string w) (Py.split sep s).
Proof.
  induction s as [|c s IH]; simpl.
  - constructor; [| done]. simpl. by intros ?%elem_of_nil.
  - destruct (Ascii.eqb_spec c sep) as [-> | Hc].
    + constructor; [| done]. simpl. by intros ?%elem_of_nil.
    + destruct (Py.split sep s) as [|w ws].
      * constructor; [| done]. simpl. list_members. intuition congruence.
      * apply Forall_cons in IH as [Hw Hws]. constructor; [| done].
        simpl. list_members. intuition congruence.
Qed.

Lemma concat_snoc (sep : string) (init : list string) (v : string) :
  init <> [] ->
  String.concat sep (init ++ [v]) = (String.concat sep init +:+ sep +:+ v).
Proof.
  induction init as [|w ws IH]; [done |]. intros _.
  destruct ws as [|w' ws]; [reflexivity |].
  change (String.concat sep ((w :: w' :: ws) ++ [v]))
    with (w +:+ sep +:+ String.concat sep ((w' :: ws) ++ [v])).
  rewrite IH by done.
  change (String.concat sep (w :: w' :: ws))
    with (w +:+ sep +:+ String.concat sep (w' :: ws)).
  by rewrite !append_assoc.
Qed.

(** [threshold key] is the part of [key] after its last colon, or all of
    [key] when it has none. *)
Lemma threshold_spec (key : string) :
  (":"%char ∉ String.list_ascii_of_string (threshold key)) /\
  (key = threshold key \/ (exists p, key = (p +:+ ":" +:+ threshold key))).
Proof.
  unfold threshold, Py.last_item.
  pose proof (split_nonempty ":" key) as Hne.
  pose proof (split_no_sep ":" key) as Hno.
  pose proof (join_split ":" key) as Hjoin.
  destruct (List.exists_last Hne) as (init & v & Heq).
  rewrite Heq in *. rewrite List.last_last.
  rewrite Forall_app, Forall_singleton in Hno. destruct Hno as [_ Hv].
  split; [done |].
  destruct init as [|w ws]; [by left |].
  right. exists (String.concat ":" (w :: ws)).
  by rewrite <- concat_snoc.
Qed.

(** C9.  For a band whose percentile query answers with the keys [k0],
    [k1] (and possibly more), in that order, [lower_in] and [upper_in]
    are the texts of [k0] and [k1] after their last colon (the whole key
    when it has none), whatever these texts are; nothing converts or
    checks them.  They appear as they are in the clamp expression and in
    the rescale expression, which are the two commands issued next. *)
Theorem thresholds_spliced_verbatim (e : engine) (o : options) (f : bool) (pid : Z)
        (lower_out upper_out rast rescaled_rast : string) (st : state)
        (k0 k1 : string) (more : list string) :
  e (log st) (quantile_command o rast) = Some (k0 :: k1 :: more) ->
  exists lower_in upper_in cs,
    (":"%char ∉ String.list_ascii_of_string lower_in) /\
    (k0 = lower_in \/ (exists p, k0 = (p +:+ ":" +:+ lower_in))) /\
    (":"%char ∉ String.list_ascii_of_string upper_in) /\
    (k1 = upper_in \/ (exists p, k1 = (p +:+ ":" +:+ upper_in))) /\
    log (snd (rescale e o f pid lower_out upper_out rast rescaled_rast st))
    = log st ++
      quantile_command o rast ::
      r_mapcalc
        (temp_name rast pid +:+ " = if(" +:+ rast +:+ " <= " +:+ lower_in +:+ ", "
         +:+ lower_in +:+ ",if(" +:+ rast +:+ " >= " +:+ upper_in +:+ ", "
         +:+ upper_in +:+ "," +:+ rast +:+ "))") :: cs /\
    (cs = [] \/
     cs = [r_mapcalc
             (rescaled_rast +:+ " = " +:+
              (if f then "" else "round(") +:+
              "((" +:+ temp_name rast pid +:+ " - " +:+ lower_in +:+ ")/("
              +:+ upper_in +:+ " - " +:+ lower_in +:+ ")) * " +:+ upper_out
              +:+ " + " +:+ lower_out +:+ (if f then "" else ")"))]).
Proof.
  intros Hq.
  destruct (threshold_spec k0) as [H0 H0'], (threshold_spec k1) as [H1 H1'].
  rewrite (rescale_run _ _ _ _ _ _ _ _ _ _ _ _ Hq). cbv zeta.
  assert (Hresc :
            resc_expression f rescaled_rast (temp_name rast pid) (threshold k0)
              (threshold k1) upper_out lower_out
            = rescaled_rast +:+ " = " +:+
              (if f then "" else "round(") +:+
              "((" +:+ temp_name rast pid +:+ " - " +:+ threshold k0 +:+ ")/("
              +:+ threshold k1 +:+ " - " +:+ threshold k0 +:+ ")) * " +:+ upper_out
              +:+ " + " +:+ lower_out +:+ (if f then "" else ")")).
  { unfold resc_expression, resc_expression2. destruct f; string_eq. }
  rewrite Hresc.
  destruct (e (log st ++ _) _).
  - exists (threshold k0), (threshold k1).
    destruct (e (log st ++ [_; _]) _); simpl;
      (eexists; repeat split; try done; by right).
  - exists (threshold k0), (threshold k1), []. simpl.
    repeat split; try done. by left.
Qed.

Lemma thresholds_spliced_verbatim_witness :
  exists lower_in upper_in cs,
    (":"%char ∉ String.list_ascii_of_string lower_in) /\
    ("nan" = lower_in \/ (exists p, "nan" = (p +:+ ":" +:+ lower_in))) /\
    (":"%char ∉ String.list_ascii_of_string upper_in) /\
    ("x:y:oops" = upper_in \/ (exists p, "x:y:oops" = (p +:+ ":" +:+ upper_in))) /\
    log (snd (rescale junk_engine (demo_options "b4" "b3" "b2" "0,255" "s") false
                4242 "0" "255" "b4" "b4_s" (mkState [] [])))
    = [] ++
      quantile_command (demo_options "b4" "b3" "b2" "0,255" "s") "b4" ::
      r_mapcalc
        (temp_name "b4" 4242 +:+ " = if(" +:+ "b4" +:+ " <= " +:+ lower_in +:+ ", "
         +:+ lower_in +:+ ",if(" +:+ "b4" +:+ " >= " +:+ upper_in +:+ ", "
         +:+ upper_in +:+ "," +:+ "b4" +:+ "))") :: cs /\
    (cs = [] \/
     cs = [r_mapcalc
             ("b4_s" +:+ " = " +:+
              (if false then "" else "round(") +:+
              "((" +:+ temp_name "b4" 4242 +:+ " - " +:+ lower_in +:+ ")/("
              +:+ upper_in +:+ " - " +:+ lower_in +:+ ")) * " +:+ "255"
              +:+ " + " +:+ "0" +:+ (if false then "" else ")"))]).
Proof.
  apply (thresholds_spliced_verbatim junk_engine
           (demo_options "b4" "b3" "b2" "0,255" "s") false 4242
           "0" "255" "b4" "b4_s" (mkState [] []) "nan" "x:y:oops" []).
  reflexivity.
Defined.

(** ** Registration of the temporary rasters *)

Lemma queries_registered_extend (e : engine) (pid : Z) (st st' : state)
      (cs : list command) :
  queries_registered e pid st ->
  log st' = log st ++ cs ->
  (forall name, name ∈ rm_rasters st -> name ∈ rm_rasters st') ->
  (forall j rast percentiles k0 k1 more,
     cs !! j = Some (r_quantile rast percentiles) ->
     e (log st ++ take j cs) (r_quantile rast percentiles) = Some (k0 :: k1 :: more) ->
     temp_name rast pid ∈ rm_rasters st') ->
  queries_registered e pid st'.
Proof.
  intros Hinv Hlog Hrm Hnew i rast percentiles k0 k1 more Hi He.
  rewrite Hlog in Hi, He.
  destruct (decide (i < length (log st))%nat) as [Hlt | Hge].
  - rewrite lookup_app_l in Hi by done.
    rewrite take_app_le in He by lia.
    apply Hrm. by eapply Hinv.
  - rewrite lookup_app_r in Hi by lia.
    rewrite take_app_ge in He by lia.
    by eapply Hnew.
Qed.

Global Instance keeps_registered_preorder (e : engine) (pid : Z) :
  PreOrder (keeps_registered e pid).
Proof.
  split.
  - by intros st H.
  - intros st1 st2 st3 H12 H23 H. by apply H23, H12.
Qed.

Lemma keeps_run_command (e : engine) (pid : Z) (c : command) :
  ~ is_quantile c ->
  spec (keeps_registered e pid) (fun _ => True) (run_command e c).
Proof.
  intros Hc st. split; [| done]. intros Hinv.
  apply (queries_registered_extend e pid st _ [c]); try done.
  - unfold run_command. by destruct (e (log st) c).
  - unfold run_command. by destruct (e (log st) c).
  - intros [|j] rast percentiles k0 k1 more Hj; simpl in Hj; [| done].
    injection Hj as ->. by destruct Hc.
Qed.

Lemma keeps_rescale (e : engine) (o : options) (f : bool) (pid : Z)
      (lower_out upper_out rast rescaled_rast : string) :
  spec (keeps_registered e pid) (fun _ => True)
    (rescale e o f pid lower_out upper_out rast rescaled_rast).
Proof.
  intros st. split; [| done]. intros Hinv.
  destruct (e (log st) (quantile_command o rast)) as [[|k0 [|k1 more]]|] eqn:Hq.
  1, 2, 4:
    destruct (rescale_short e o f pid lower_out upper_out rast rescaled_rast st)
      as [r ->]; [intros ? ? ?; by rewrite Hq |];
    apply (queries_registered_extend e pid st _ [quantile_command o rast]);
    try done;
    intros [|j] rast' percentiles k0' k1' more' Hj; simpl in Hj; try done;
    injection Hj as <- <-; rewrite app_nil_r;
    fold (quantile_command o rast); by rewrite Hq.
  rewrite (rescale_run _ _ _ _ _ _ _ _ _ _ _ _ Hq). cbv zeta.
  destruct (e (log st ++ _) _).
  - destruct (e (log st ++ [_; _]) _);
      (eapply queries_registered_extend; [exact Hinv | reflexivity | |]; simpl;
       [intros name Hn; apply elem_of_app; by left |];
       intros [|[|[|j]]] rast' percentiles k0' k1' more' Hj; simpl in Hj; try done;
       injection Hj as <- _; intros _; apply elem_of_app; right; by left).
  - eapply queries_registered_extend; [exact Hinv | reflexivity | |]; simpl.
    + intros name Hn. apply elem_of_app. by left.
    + intros [|[|j]] rast' percentiles k0' k1' more' Hj; simpl in Hj; try done.
      injection Hj as <- _. intros _. apply elem_of_app. right. by left.
Qed.

Lemma main_keeps_registered (e : engine) (o : options) (f : bool) (pid : Z) :
  queries_registered e pid (snd (run_main e o f pid)).
Proof.
  assert (Hspec : spec (keeps_registered e pid) (fun _ => True) (main e o f pid)).
  { apply (main_spec e o f pid (keeps_registered e pid)).
    - intros. apply keeps_rescale.
    - intros. apply keeps_run_command. simpl. tauto.
    - intros. apply keeps_run_command. simpl. tauto. }
  destruct (Hspec (mkState [] [])) as [Hkeep _].
  apply Hkeep. by intros i ? ? ? ? ? ?.
Qed.

(** C10.  In the work on a band, once the percentile query has answered
    with two keys, the name of the temporary raster is in [rm_rasters]
    whatever happens next: it is appended before the [r.mapcalc] that
    creates the raster is issued, so a failure of that command, or of the
    rescale command after it, leaves the name registered.  Over the whole
    run, every band whose query was answered has its temporary raster
    registered at exit, whichever command failed. *)
Theorem temporary_registered_before_creation
        (e : engine) (o : options) (f : bool) (pid : Z)
        (lower_out upper_out rast rescaled_rast : string) (st : state)
        (k0 k1 : string) (more : list string) :
  e (log st) (quantile_command o rast) = Some (k0 :: k1 :: more) ->
  rm_rasters (snd (rescale e o f pid lower_out upper_out rast rescaled_rast st))
  = rm_rasters st ++ [temp_name rast pid] /\
  (exists cs,
     log (snd (rescale e o f pid lower_out upper_out rast rescaled_rast st))
     = log st ++
       quantile_command o rast ::
       r_mapcalc (clamp_expression (temp_name rast pid) rast
                    (threshold k0) (threshold k1)) :: cs) /\
  (e (log st ++ [quantile_command o rast])
     (r_mapcalc (clamp_expression (temp_name rast pid) rast
                   (threshold k0) (threshold k1))) = None ->
   rescale e o f pid lower_out upper_out rast rescaled_rast st
   = (Raised (CalledModuleError
                (r_mapcalc (clamp_expression (temp_name rast pid) rast
                              (threshold k0) (threshold k1)))),
      mkState (rm_rasters st ++ [temp_name rast pid])
        (log st ++
         [quantile_command o rast;
          r_mapcalc (clamp_expression (temp_name rast pid) rast
                       (threshold k0) (threshold k1))]))) /\
  queries_registered e pid (snd (run_main e o f pid)).
Proof.
  intros Hq.
  rewrite (rescale_run _ _ _ _ _ _ _ _ _ _ _ _ Hq). cbv zeta.
  split; [| split; [| split]].
  - destruct (e (log st ++ _) _); [| done].
    by destruct (e (log st ++ [_; _]) _).
  - destruct (e (log st ++ _) _); [| by exists []].
    destruct (e (log st ++ [_; _]) _); by eexists.
  - by intros ->.
  - apply main_keeps_registered.
Qed.

Lemma temporary_registered_before_creation_witness :
  rescale mapcalc_failing_engine (demo_options "b4" "b3" "b2" "0,255" "s") false
    4242 "0" "255" "b4" "b4_s" (mkState [] [])
  = (Raised (CalledModuleError
               (r_mapcalc "b4_tmp_4242 = if(b4 <= 10.000000, 10.000000,if(b4 >= 110.000000, 110.000000,b4))")),
     mkState ["b4_tmp_4242"]
       [r_quantile "b4" "2,98";
        r_mapcalc "b4_tmp_4242 = if(b4 <= 10.000000, 10.000000,if(b4 >= 110.000000, 110.000000,b4))"]).
Proof.
  apply (temporary_registered_before_creation mapcalc_failing_engine
           (demo_options "b4" "b3" "b2" "0,255" "s") false 4242
           "0" "255" "b4" "b4_s" (mkState [] [])
           "0:2.000000:10.000000" "1:98.000000:110.000000" []);
    reflexivity.
Defined.

(** ** The values of the two expressions *)

Lemma show_clamp (out in_ lower_in upper_in : string) :
  clamp_expression out in_ lower_in upper_in
  = Mapcalc.assign out (Mapcalc.clamp in_ lower_in upper_in).
Proof.
  unfold clamp_expression, Mapcalc.assign, Mapcalc.clamp. simpl. string_eq.
Qed.

Lemma show_resc (f : bool) (rescaled_rast in_ lower_in upper_in
                 upper_out lower_out : string) :
  resc_expression f rescaled_rast in_ lower_in upper_in upper_out lower_out
  = Mapcalc.assign rescaled_rast
      (Mapcalc.resc f in_ lower_in upper_in upper_out lower_out).
Proof.
  unfold resc_expression, resc_expression2, Mapcalc.assign, Mapcalc.resc,
    Mapcalc.resc2.
  destruct f; simpl; string_eq.
Qed.

Lemma eval_resc2 (m : Mapcalc.cells) (temp lower_in upper_in upper_out
                  lower_out : string) (c a b u l : Q) :
  Mapcalc.eval m (Mapcalc.Atom temp) = Some c ->
  Mapcalc.eval m (Mapcalc.Atom lower_in) = Some a ->
  Mapcalc.eval m (Mapcalc.Atom upper_in) = Some b ->
  Mapcalc.eval m (Mapcalc.Atom upper_out) = Some u ->
  Mapcalc.eval m (Mapcalc.Atom lower_out) = Some l ->
  ~ (b - a == 0)%Q ->
  Mapcalc.eval m (Mapcalc.resc2 temp lower_in upper_in upper_out lower_out)
  = Some (linear c a b u l).
Proof.
  intros Hc Ha Hb Hu Hl Hne. unfold Mapcalc.resc2, linear. simpl in *.
  rewrite Hc, Ha, Hb, Hu, Hl. simpl. unfold Mapcalc.div.
  destruct (Qeq_bool (b - a) 0) eqn:Hz; [| done].
  by apply Qeq_bool_iff in Hz.
Qed.

Lemma round_nearest (x : Q) :
  exists n : Z,
    Mapcalc.round x = inject_Z n /\
    (x - (1 # 2) < inject_Z n)%Q /\ (inject_Z n <= x + (1 # 2))%Q.
Proof.
  exists (Qfloor (x + (1 # 2))). split; [done |].
  pose proof (Qfloor_le (x + (1 # 2))) as Hle.
  pose proof (Qlt_floor (x + (1 # 2))) as Hlt.
  rewrite inject_Z_plus in Hlt. split; [| done].
  change (inject_Z 1) with 1%Q in Hlt. lra.
Qed.

(** *** Under any arithmetic *)

Lemma run_same {A : Evaluator.arith} (out : string) (x : Mapcalc.expr)
      (m : Evaluator.cells A) :
  Evaluator.run out x m out = Evaluator.eval A m x.
Proof. unfold Evaluator.run. by rewrite bool_decide_eq_true_2. Qed.

Lemma run_other {A : Evaluator.arith} (out name : string) (x : Mapcalc.expr)
      (m : Evaluator.cells A) :
  name <> out -> Evaluator.run out x m name = m name.
Proof. intros Hne. unfold Evaluator.run. by rewrite bool_decide_eq_false_2. Qed.

Lemma eval_clamped (A : Evaluator.arith) (m : Evaluator.cells A)
      (rast lower_in upper_in : string) (x a b : Evaluator.num A) :
  Evaluator.eval A m (Mapcalc.Atom rast) = Some x ->
  Evaluator.eval A m (Mapcalc.Atom lower_in) = Some a ->
  Evaluator.eval A m (Mapcalc.Atom upper_in) = Some b ->
  Evaluator.eval A m (Mapcalc.clamp rast lower_in upper_in)
  = Some (Evaluator.clamped A x a b).
Proof.
  intros Hx Ha Hb. unfold Mapcalc.clamp, Evaluator.clamped.
  cbn [Evaluator.eval] in *. rewrite Hx, Ha, Hb. cbn [Evaluator.bin].
  destruct (Evaluator.nonzero A (Evaluator.le A x a)); [done |].
  by destruct (Evaluator.nonzero A (Evaluator.ge A x b)).
Qed.

Lemma eval_scaled (A : Evaluator.arith) (m : Evaluator.cells A)
      (temp lower_in upper_in upper_out lower_out : string)
      (c a b u l : Evaluator.num A) :
  Evaluator.eval A m (Mapcalc.Atom temp) = Some c ->
  Evaluator.eval A m (Mapcalc.Atom lower_in) = Some a ->
  Evaluator.eval A m (Mapcalc.Atom upper_in) = Some b ->
  Evaluator.eval A m (Mapcalc.Atom upper_out) = Some u ->
  Evaluator.eval A m (Mapcalc.Atom lower_out) = Some l ->
  Evaluator.eval A m (Mapcalc.resc2 temp lower_in upper_in upper_out lower_out)
  = Evaluator.scaled A c a b u l.
Proof.
  intros Hc Ha Hb Hu Hl. unfold Mapcalc.resc2, Evaluator.scaled.
  cbn [Evaluator.eval] in *. by rewrite Hc, Ha, Hb, Hu, Hl.
Qed.

(** With both of its [r.mapcalc] commands accepted up to the second,
    [rescale] issues exactly three commands. *)
Lemma rescale_three_commands (e : engine) (o : options) (f : bool) (pid : Z)
      (lower_out upper_out rast rescaled_rast : string) (st : state)
      (k0 k1 : string) (more : list string) :
  e (log st) (quantile_command o rast) = Some (k0 :: k1 :: more) ->
  e (log st ++ [quantile_command o rast])
    (r_mapcalc (clamp_expression (temp_name rast pid) rast
                  (threshold k0) (threshold k1))) <> None ->
  log (snd (rescale e o f pid lower_out upper_out rast rescaled_rast st))
  = log st ++
    [quantile_command o rast;
     r_mapcalc (clamp_expression (temp_name rast pid) rast
                  (threshold k0) (threshold k1));
     r_mapcalc (resc_expression f rescaled_rast (temp_name rast pid)
                  (threshold k0) (threshold k1) upper_out lower_out)].
Proof.
  intros Hq Hc. rewrite (rescale_run _ _ _ _ _ _ _ _ _ _ _ _ Hq). cbv zeta.
  destruct (e (log st ++ _) _); [| done].
  by destruct (e (log st ++ [_; _]) _).
Qed.

Lemma clamped_between (A : Evaluator.arith) (x a b : Evaluator.num A) :
  Evaluator.ordered A -> Evaluator.holds_le A a b ->
  Evaluator.holds_le A a (Evaluator.clamped A x a b) /\
  Evaluator.holds_le A (Evaluator.clamped A x a b) b /\
  (Evaluator.holds_le A x a ->
   Evaluator.holds_le A (Evaluator.clamped A x a b) a) /\
  (Evaluator.holds_le A b x ->
   Evaluator.holds_le A b (Evaluator.clamped A x a b)).
Proof.
  intros [Hflip Hrefl Htotal Htrans] Hab. unfold Evaluator.clamped.
  destruct (Evaluator.nonzero A (Evaluator.le A x a)) eqn:Hxa.
  { repeat split; try done; try apply Hrefl.
    intros Hbx. by apply (Htrans b x a). }
  rewrite Hflip.
  destruct (Evaluator.nonzero A (Evaluator.le A b x)) eqn:Hbx.
  { repeat split; try done; try apply Hrefl.
    intros Hxa'. unfold Evaluator.holds_le in Hxa'. congruence. }
  repeat split.
  - by apply Htotal.
  - by apply Htotal.
  - intros Hxa'. unfold Evaluator.holds_le in Hxa'. congruence.
  - intros Hbx'. unfold Evaluator.holds_le in Hbx'. congruence.
Qed.

(** C5.  When the percentile query of a band is answered with the keys
    [k0] and [k1], the command [rescale] issues right after the query is
    [temp = if(rast <= lower_in, lower_in,if(rast >= upper_in, upper_in,rast))]
    for the band [rast], its temporary raster [temp] and the thresholds
    cut from [k0] and [k1]; this text is the term [clamp].  Whatever the
    arithmetic of the evaluator, where the band has the value [x] and the
    thresholds read as [a] and [b], the command leaves in the temporary
    raster [a] when [x <= a], otherwise [b] when [x >= b], otherwise
    [x].  Where the comparisons are those of a total order and [a <= b],
    that value lies between [a] and [b], at [a] for [x <= a] and at [b]
    for [b <= x]: it is the clamp of [x] to the interval. *)
Theorem temporary_is_clamped_band (e : engine) (o : options) (f : bool) (pid : Z)
        (lower_out upper_out rast rescaled_rast : string) (st : state)
        (k0 k1 : string) (more : list string) :
  e (log st) (quantile_command o rast) = Some (k0 :: k1 :: more) ->
  (exists cs,
     log (snd (rescale e o f pid lower_out upper_out rast rescaled_rast st))
     = log st ++
       quantile_command o rast ::
       r_mapcalc
         (temp_name rast pid +:+ " = if(" +:+ rast +:+ " <= " +:+ threshold k0
          +:+ ", " +:+ threshold k0 +:+ ",if(" +:+ rast +:+ " >= "
          +:+ threshold k1 +:+ ", " +:+ threshold k1 +:+ "," +:+ rast +:+ "))")
       :: cs) /\
  temp_name rast pid +:+ " = if(" +:+ rast +:+ " <= " +:+ threshold k0
    +:+ ", " +:+ threshold k0 +:+ ",if(" +:+ rast +:+ " >= "
    +:+ threshold k1 +:+ ", " +:+ threshold k1 +:+ "," +:+ rast +:+ "))"
  = Mapcalc.assign (temp_name rast pid)
      (Mapcalc.clamp rast (threshold k0) (threshold k1)) /\
  forall (A : Evaluator.arith) (m : Evaluator.cells A) (x a b : Evaluator.num A),
    Evaluator.eval A m (Mapcalc.Atom rast) = Some x ->
    Evaluator.eval A m (Mapcalc.Atom (threshold k0)) = Some a ->
    Evaluator.eval A m (Mapcalc.Atom (threshold k1)) = Some b ->
    let v :=
      Evaluator.run (temp_name rast pid)
        (Mapcalc.clamp rast (threshold k0) (threshold k1)) m
        (temp_name rast pid) in
    (Evaluator.nonzero A (Evaluator.le A x a) = true -> v = Some a) /\
    (Evaluator.nonzero A (Evaluator.le A x a) = false ->
     Evaluator.nonzero A (Evaluator.ge A x b) = true -> v = Some b) /\
    (Evaluator.nonzero A (Evaluator.le A x a) = false ->
     Evaluator.nonzero A (Evaluator.ge A x b) = false -> v = Some x) /\
    (Evaluator.ordered A -> Evaluator.holds_le A a b ->
     exists c,
       v = Some c /\
       Evaluator.holds_le A a c /\ Evaluator.holds_le A c b /\
       (Evaluator.holds_le A x a -> Evaluator.holds_le A c a) /\
       (Evaluator.holds_le A b x -> Evaluator.holds_le A b c)).
Proof.
  intros Hq.
  assert (Htext :
            clamp_expression (temp_name rast pid) rast (threshold k0) (threshold k1)
            = temp_name rast pid +:+ " = if(" +:+ rast +:+ " <= " +:+ threshold k0
              +:+ ", " +:+ threshold k0 +:+ ",if(" +:+ rast +:+ " >= "
              +:+ threshold k1 +:+ ", " +:+ threshold k1 +:+ "," +:+ rast +:+ "))").
  { unfold clamp_expression. string_eq. }
  split; [| split].
  - rewrite (rescale_run _ _ _ _ _ _ _ _ _ _ _ _ Hq). cbv zeta. rewrite Htext.
    destruct (e (log st ++ _) _); [| by exists []].
    destruct (e (log st ++ [_; _]) _); by eexists.
  - rewrite <- Htext. apply show_clamp.
  - intros A m x a b Hx Ha Hb v. subst v. rewrite run_same.
    rewrite (eval_clamped A m _ _ _ x a b Hx Ha Hb).
    split; [| split; [| split]].
    + intros H. unfold Evaluator.clamped. by rewrite H.
    + intros H1 H2. unfold Evaluator.clamped. by rewrite H1, H2.
    + intros H1 H2. unfold Evaluator.clamped. by rewrite H1, H2.
    + intros Hord Hab. eexists. split; [reflexivity |].
      by apply clamped_between.
Qed.

Lemma temporary_is_clamped_band_witness :
  Evaluator.run (A := Evaluator.exact) "b4_tmp_4242"
    (Mapcalc.clamp "b4" "10.000000" "110.000000")
    (Evaluator.only (A := Evaluator.exact) "b4" 200%Q) "b4_tmp_4242"
  = Some (110000000 # 1000000)%Q.
Proof.
  pose proof (temporary_is_clamped_band demo_engine
                (demo_options "b4" "b3" "b2" "0,255" "s") false 4242
                "0" "255" "b4" "b4_s" (mkState [] [])
                "0:2.000000:10.000000" "1:98.000000:110.000000" [] eq_refl)
    as (_ & _ & H).
  apply (H Evaluator.exact (Evaluator.only (A := Evaluator.exact) "b4" 200%Q) 200%Q
           (10000000 # 1000000)%Q (110000000 # 1000000)%Q
           eq_refl eq_refl eq_refl);
    reflexivity.
Defined.



(** At the upper threshold the linear expression is worth
    [upper_out + lower_out]. *)
Lemma linear_at_upper_in (a b u l : Q) :
  ~ (b - a == 0)%Q -> (linear b a b u l == u + l)%Q.
Proof. intros Hne. unfold linear. field. exact Hne. Qed.

(** C1 fails on the code.  The range ["10,20"] is accepted and the
    expression submitted for a band with thresholds 10 and 110 ends in
    [* 20 + 10]: a cell at the upper threshold becomes 30, not 20, while a
    cell at the lower threshold becomes 10.  In general the value at
    [upper_in] is [upper_out + lower_out], which is [upper_out] only for
    [lower_out = 0]. *)
Theorem upper_in_maps_past_upper_out :
  validate (demo_options "b4" "b3" "b2" "10,20" "s")
  = Ok (["b4"; "b3"; "b2"], ("10", "20")) /\
  log (snd (run_main demo_engine (demo_options "b4" "b3" "b2" "10,20" "s")
              false 4242)) !! 2%nat
  = Some (r_mapcalc
            "b4_s = round(((b4_tmp_4242 - 10.000000)/(110.000000 - 10.000000)) * 20 + 10)") /\
  Mapcalc.rescaled_cell false (only_cell "b4" 110) "b4" "b4_tmp_4242"
    "10.000000" "110.000000" "20" "10" = Some 30%Q /\
  Mapcalc.rescaled_cell false (only_cell "b4" 10) "b4" "b4_tmp_4242"
    "10.000000" "110.000000" "20" "10" = Some 10%Q /\
  forall (m : Mapcalc.cells) (temp lower_in upper_in upper_out lower_out : string)
         (a b u l : Q),
    Mapcalc.eval m (Mapcalc.Atom temp) = Some b ->
    Mapcalc.eval m (Mapcalc.Atom lower_in) = Some a ->
    Mapcalc.eval m (Mapcalc.Atom upper_in) = Some b ->
    Mapcalc.eval m (Mapcalc.Atom upper_out) = Some u ->
    Mapcalc.eval m (Mapcalc.Atom lower_out) = Some l ->
    ~ (b - a == 0)%Q ->
    exists v,
      Mapcalc.eval m (Mapcalc.resc true temp lower_in upper_in upper_out lower_out)
      = Some v /\ (v == u + l)%Q.
Proof.
  split; [vm_compute; reflexivity |].
  split; [vm_compute; reflexivity |].
  split; [vm_compute; reflexivity |].
  split; [vm_compute; reflexivity |].
  intros m temp lower_in upper_in upper_out lower_out a b u l Hc Ha Hb Hu Hl Hne.
  exists (linear b a b u l). split.
  - by apply eval_resc2.
  - by apply linear_at_upper_in.
Qed.

(** ** Equal thresholds *)

Lemma eval_resc_flat (f : bool) (m : Mapcalc.cells)
      (temp v upper_out lower_out : string) :
  Mapcalc.eval m (Mapcalc.resc f temp v v upper_out lower_out) = None.
Proof.
  assert (H2 : Mapcalc.eval m (Mapcalc.resc2 temp v v upper_out lower_out) = None).
  { unfold Mapcalc.resc2.
    change (Mapcalc.eval m (Mapcalc.Add ?x ?y))
      with (Mapcalc.bin (fun p q => Some (p + q)%Q)
              (Mapcalc.eval m x) (Mapcalc.eval m y)).
    change (Mapcalc.eval m (Mapcalc.Mul ?x ?y))
      with (Mapcalc.bin (fun p q => Some (p * q)%Q)
              (Mapcalc.eval m x) (Mapcalc.eval m y)).
    change (Mapcalc.eval m (Mapcalc.Paren (Mapcalc.Div ?x ?y)))
      with (Mapcalc.bin Mapcalc.div (Mapcalc.eval m x) (Mapcalc.eval m y)).
    change (Mapcalc.eval m (Mapcalc.Paren (Mapcalc.Sub ?x ?y)))
      with (Mapcalc.bin (fun p q => Some (p - q)%Q)
              (Mapcalc.eval m x) (Mapcalc.eval m y)).
    assert (Hd : forall n,
               Mapcalc.bin Mapcalc.div n
                 (Mapcalc.bin (fun p q => Some (p - q)%Q)
                    (Mapcalc.eval m (Mapcalc.Atom v))
                    (Mapcalc.eval m (Mapcalc.Atom v))) = None).
    { intros n. destruct (Mapcalc.eval m (Mapcalc.Atom v)) as [q|]; simpl.
      - destruct n as [p|]; simpl; [| done]. unfold Mapcalc.div.
        assert (Hz : Qeq_bool (q - q) 0 = true) by (apply Qeq_bool_iff; ring).
        by rewrite Hz.
      - by destruct n. }
    by rewrite Hd. }
  unfold Mapcalc.resc. destruct f; [done |].
  change (Mapcalc.eval m (Mapcalc.Round ?x))
    with (Mapcalc.round <$> Mapcalc.eval m x).
  by rewrite H2.
Qed.

(** C7.  When the two keys of the percentile query carry the same
    threshold [v], [rescale] does what it does for any other answer: it
    never ends in [grass.fatal], and as long as the engine accepts the
    commands it issues the clamp and then the rescale expression, whose
    divisor is [(v - v)].  That expression has no value at any cell: the
    division by zero is left to the evaluator. *)
Theorem equal_thresholds_not_checked (e : engine) (o : options) (f : bool) (pid : Z)
        (lower_out upper_out rast rescaled_rast : string) (st : state)
        (k0 k1 : string) (more : list string) (v : string) :
  e (log st) (quantile_command o rast) = Some (k0 :: k1 :: more) ->
  threshold k0 = v -> threshold k1 = v ->
  (forall msg,
     fst (rescale e o f pid lower_out upper_out rast rescaled_rast st) <> Fatal msg) /\
  (e (log st ++ [quantile_command o rast])
     (r_mapcalc (clamp_expression (temp_name rast pid) rast v v)) <> None ->
   log (snd (rescale e o f pid lower_out upper_out rast rescaled_rast st))
   = log st ++
     [quantile_command o rast;
      r_mapcalc (clamp_expression (temp_name rast pid) rast v v);
      r_mapcalc
        (rescaled_rast +:+ " = " +:+ (if f then "" else "round(") +:+
         "((" +:+ temp_name rast pid +:+ " - " +:+ v +:+ ")/(" +:+ v +:+ " - " +:+
         v +:+ ")) * " +:+ upper_out +:+ " + " +:+ lower_out +:+
         (if f then "" else ")"))] /\
   (e (log st ++
       [quantile_command o rast;
        r_mapcalc (clamp_expression (temp_name rast pid) rast v v)])
      (r_mapcalc (resc_expression f rescaled_rast (temp_name rast pid) v v
                    upper_out lower_out)) <> None ->
    fst (rescale e o f pid lower_out upper_out rast rescaled_rast st) = Ok tt)) /\
  resc_expression f rescaled_rast (temp_name rast pid) v v upper_out lower_out
  = Mapcalc.assign rescaled_rast
      (Mapcalc.resc f (temp_name rast pid) v v upper_out lower_out) /\
  forall m,
    Mapcalc.eval m (Mapcalc.resc f (temp_name rast pid) v v upper_out lower_out)
    = None.
Proof.
  intros Hq H0 H1.
  rewrite (rescale_run _ _ _ _ _ _ _ _ _ _ _ _ Hq). cbv zeta.
  rewrite H0, H1.
  assert (Hresc :
            resc_expression f rescaled_rast (temp_name rast pid) v v
              upper_out lower_out
            = rescaled_rast +:+ " = " +:+ (if f then "" else "round(") +:+
              "((" +:+ temp_name rast pid +:+ " - " +:+ v +:+ ")/(" +:+ v +:+
              " - " +:+ v +:+ ")) * " +:+ upper_out +:+ " + " +:+ lower_out +:+
              (if f then "" else ")")).
  { unfold resc_expression, resc_expression2. destruct f; string_eq. }
  split; [| split; [| split]].
  - intros msg. destruct (e (log st ++ _) _); [| done].
    by destruct (e (log st ++ [_; _]) _).
  - intros Hc1. destruct (e (log st ++ _) _) as [keys|]; [| done].
    split.
    + rewrite <- Hresc. by destruct (e (log st ++ [_; _]) _).
    + intros Hc2. by destruct (e (log st ++ [_; _]) _).
  - apply show_resc.
  - intros m. apply eval_resc_flat.
Qed.

Lemma equal_thresholds_not_checked_witness :
  log (snd (rescale flat_engine (demo_options "b4" "b3" "b2" "0,255" "s") true 4242
              "0" "255" "b4" "b4_s" (mkState [] [])))
  = [r_quantile "b4" "2,98";
     r_mapcalc "b4_tmp_4242 = if(b4 <= 7.000000, 7.000000,if(b4 >= 7.000000, 7.000000,b4))";
     r_mapcalc "b4_s = ((b4_tmp_4242 - 7.000000)/(7.000000 - 7.000000)) * 255 + 0"] /\
  fst (rescale flat_engine (demo_options "b4" "b3" "b2" "0,255" "s") true 4242
         "0" "255" "b4" "b4_s" (mkState [] [])) = Ok tt.
Proof.
  destruct (equal_thresholds_not_checked flat_engine
              (demo_options "b4" "b3" "b2" "0,255" "s") true 4242
              "0" "255" "b4" "b4_s" (mkState [] [])
              "0:2.000000:7.000000" "1:98.000000:7.000000" [] "7.000000"
              eq_refl eq_refl eq_refl) as (_ & H & _).
  destruct H as [Hlog Hok]; [discriminate |].
  split; [exact Hlog |]. apply Hok. discriminate.
Defined.

(** ** The script on examples *)

Example split_two : Py.split "," "0,255" = ["0"; "255"].
Proof. reflexivity. Qed.

Example split_empty : Py.split "," "" = [""].
Proof. reflexivity. Qed.

Example split_trailing : Py.split "," "7," = ["7"; ""].
Proof. reflexivity. Qed.

Example int_accepts :
  Py.int "255" = Some 255 /\ Py.int " -12 " = Some (-12) /\
  Py.int "+7" = Some 7 /\ Py.int "1_000" = Some 1000 /\ Py.int "007" = Some 7.
Proof. repeat split; vm_compute; reflexivity. Qed.

Example int_refuses :
  Py.int "abc" = None /\ Py.int "" = None /\ Py.int "1__0" = None /\
  Py.int "1_" = None /\ Py.int "- 5" = None /\ Py.int "2.5" = None /\
  Py.int (String "028" "5") = None /\ Py.int (String "5" (String "031" "")) = None.
Proof. repeat split; vm_compute; reflexivity. Qed.

(** The limit on the number of digits counts leading zeros and not the
    sign. *)
Example int_digit_limit :
  Py.int (String.concat "" (replicate 4300 "1")) <> None /\
  Py.int ("-" +:+ String.concat "" (replicate 4300 "1")) <> None /\
  Py.int (String.concat "" (replicate 4301 "1")) = None /\
  Py.int (String.concat "" (replicate 4301 "0")) = None.
Proof. repeat split; vm_compute; congruence. Qed.

Example str_int_decimal :
  Py.str_int 255 = "255" /\ Py.str_int 0 = "0" /\ Py.str_int (-3) = "-3".
Proof. repeat split; vm_compute; reflexivity. Qed.

Example threshold_of_key :
  threshold "0:2.000000:10.000000" = "10.000000" /\ threshold "nan" = "nan".
Proof. split; reflexivity. Qed.

Example number_reads :
  Mapcalc.number "255" = Some 255%Q /\ Mapcalc.number "-5" = Some (-5)%Q /\
  Mapcalc.number "110.000000" = Some (110000000 # 1000000) /\
  Mapcalc.number "b4" = None /\ Mapcalc.number "1_0" = None.
Proof. repeat split; vm_compute; reflexivity. Qed.

(** Red and blue on the same band, default range, integer output. *)
Example run_red_blue_same :
  run_main demo_engine (demo_options "b4" "b3" "b4" "0,255" "reclassified")
    false 4242
  = (Ok "Created output group <rgb>",
     mkState ["b4_tmp_4242"; "b3_tmp_4242"]
       [r_quantile "b4" "2,98";
        r_mapcalc "b4_tmp_4242 = if(b4 <= 10.000000, 10.000000,if(b4 >= 110.000000, 110.000000,b4))";
        r_mapcalc "b4_reclassified = round(((b4_tmp_4242 - 10.000000)/(110.000000 - 10.000000)) * 255 + 0)";
        r_quantile "b3" "2,98";
        r_mapcalc "b3_tmp_4242 = if(b3 <= 10.000000, 10.000000,if(b3 >= 110.000000, 110.000000,b3))";
        r_mapcalc "b3_reclassified = round(((b3_tmp_4242 - 10.000000)/(110.000000 - 10.000000)) * 255 + 0)";
        g_copy "b4_reclassified,b4_reclassified_copied";
        i_group "rgb" ["b4_reclassified"; "b3_reclassified"; "b4_reclassified_copied"]]).
Proof. vm_compute. reflexivity. Qed.

(** A failing [r.mapcalc] ends the run with the exception; the temporary
    is registered, and the hook removes it only if it exists. *)
Example run_mapcalc_fails :
  fst (run_main mapcalc_failing_engine
         (demo_options "b4" "b3" "b2" "0,255" "s") false 4242)
  = Raised (CalledModuleError
              (r_mapcalc "b4_tmp_4242 = if(b4 <= 10.000000, 10.000000,if(b4 >= 110.000000, 110.000000,b4))")) /\
  rm_rasters (snd (run_main mapcalc_failing_engine
                     (demo_options "b4" "b3" "b2" "0,255" "s") false 4242))
  = ["b4_tmp_4242"] /\
  fst (at_exit mapcalc_failing_engine
         (demo_options "b4" "b3" "b2" "0,255" "s") false 4242 ∅) = Ok tt.
Proof. repeat split; vm_compute; reflexivity. Qed.

(** With every module failing, the first percentile query ends the run
    and nothing is registered. *)
Example run_quantile_fails :
  run_main failing_engine (demo_options "b4" "b3" "b2" "0,255" "s") false 4242
  = (Raised (CalledModuleError (r_quantile "b4" "2,98")),
     mkState [] [r_quantile "b4" "2,98"]).
Proof. vm_compute. reflexivity. Qed.

(** A range with one token, and one that is not numeric. *)
Example range_refused :
  validate (demo_options "b4" "b3" "b2" "255" "s") = Fatal msg_format /\
  validate (demo_options "b4" "b3" "b2" "0;255" "s") = Fatal msg_format /\
  validate (demo_options "b4" "b3" "b2" "0,2.5" "s") = Fatal msg_format /\
  validate (demo_options "b4" "b3" "b2" "" "s") = Fatal msg_format.
Proof. repeat split; vm_compute; reflexivity. Qed.

(** * Further properties of the script *)

(** ** The scan for the duplicate *)

(** The scan, started after the entries [pre] with [unique_rasters]
    holding the same names as [pre]: either no entry of [l] repeats an
    earlier one and [dupl_index] is unchanged, or the result is the
    position of the last entry that does. *)
Lemma find_duplicate_scan (l pre unique_rasters : list string)
      (dupl_index : option nat) :
  (forall x, x ∈ unique_rasters <-> x ∈ pre) ->
  (find_duplicate l (length pre) unique_rasters dupl_index = dupl_index /\
   forall k x, l !! k = Some x -> x ∉ pre ++ take k l) \/
  (exists k x,
     find_duplicate l (length pre) unique_rasters dupl_index
     = Some (length pre + k)%nat /\
     l !! k = Some x /\ x ∈ pre ++ take k l /\
     forall k' x', (k < k')%nat -> l !! k' = Some x' -> x' ∉ pre ++ take k' l).
Proof.
  revert pre unique_rasters dupl_index.
  induction l as [|val l IH]; intros pre uniq d Huniq; simpl.
  - left. split; [done |]. by intros k x ?.
  - assert (Hshift : forall k, (pre ++ [val]) ++ take k l = pre ++ val :: take k l).
    { intros k. by rewrite <- app_assoc. }
    unfold Py.contains. case_bool_decide as Hin.
    + assert (Huniq' : forall x, x ∈ uniq <-> x ∈ pre ++ [val]).
      { intros x. rewrite elem_of_app, list_elem_of_singleton, Huniq.
        split; [tauto |]. intros [? | ->]; [done | by apply Huniq]. }
      destruct (IH (pre ++ [val]) uniq (Some (length pre)) Huniq')
        as [[Hres Hno] | (k & x & Hres & Hk & Hx & Hlast)];
        rewrite length_app in Hres; simpl in Hres;
        replace (length pre + 1)%nat with (S (length pre)) in Hres by lia;
        right.
      * exists 0%nat, val. rewrite Hres, Nat.add_0_r. simpl.
        rewrite app_nil_r. repeat split; [by apply Huniq |].
        intros [|k'] x' Hk' Hx'; [lia |]. simpl in Hx'.
        simpl; rewrite <- (Hshift k'). by apply Hno.
      * exists (S k), x. rewrite Hres. simpl.
        rewrite <- (Hshift k).
        repeat split; [f_equal; lia | done | done |].
        intros [|k'] x' Hk' Hx'; [lia |]. simpl in Hx'.
        simpl; rewrite <- (Hshift k'). apply Hlast; [lia | done].
    + assert (Huniq' : forall x, x ∈ uniq ++ [val] <-> x ∈ pre ++ [val]).
      { intros x. by rewrite !elem_of_app, Huniq. }
      destruct (IH (pre ++ [val]) (uniq ++ [val]) d Huniq')
        as [[Hres Hno] | (k & x & Hres & Hk & Hx & Hlast)];
        rewrite length_app in Hres; simpl in Hres;
        replace (length pre + 1)%nat with (S (length pre)) in Hres by lia.
      * left. split; [done |].
        intros [|k] x Hk; simpl in Hk.
        -- injection Hk as <-. simpl. rewrite app_nil_r. by rewrite <- Huniq.
        -- simpl; rewrite <- (Hshift k). by apply Hno.
      * right. exists (S k), x. rewrite Hres. simpl.
        rewrite <- (Hshift k).
        repeat split; [f_equal; lia | done | done |].
        intros [|k'] x' Hk' Hx'; [lia |]. simpl in Hx'.
        simpl; rewrite <- (Hshift k'). apply Hlast; [lia | done].
Qed.

Lemma NoDup_no_repeat (l : list string) :
  NoDup l <-> forall k x, l !! k = Some x -> x ∉ take k l.
Proof.
  rewrite NoDup_alt. split.
  - intros Hnd k x Hk Hin.
    apply list_elem_of_lookup in Hin as [j Hj].
    pose proof (lookup_lt_Some _ _ _ Hj) as Hlt. rewrite length_take in Hlt.
    rewrite lookup_take_lt in Hj by lia.
    specialize (Hnd _ _ _ Hk Hj). lia.
  - intros Hno i j x Hi Hj.
    destruct (Nat.lt_trichotomy i j) as [Hlt | [-> | Hlt]]; [| done |]; exfalso.
    + apply (Hno j x Hj). apply list_elem_of_lookup. exists i.
      by rewrite lookup_take_lt.
    + apply (Hno i x Hi). apply list_elem_of_lookup. exists j.
      by rewrite lookup_take_lt.
Qed.

(** X1.  The loop of lines 195-200, on any list: [dupl_index] stays
    [None] exactly when the entries are pairwise distinct; otherwise it
    is the position of the last entry equal to an earlier one, so the
    indexing at line 201 finds an entry there. *)
Theorem find_duplicate_last_repeat (l : list string) :
  (find_duplicate l 0 [] None = None <-> NoDup l) /\
  (forall i,
     find_duplicate l 0 [] None = Some i ->
     exists x,
       l !! i = Some x /\ x ∈ take i l /\
       forall k y, (i < k)%nat -> l !! k = Some y -> y ∉ take k l).
Proof.
  destruct (find_duplicate_scan l [] [] None) as [[Hres Hno] | (k & x & Hres & Hk & Hx & Hlast)];
    [done | |]; simpl in *.
  - split.
    + split; [intros _; by apply NoDup_no_repeat | done].
    + intros i Hi. congruence.
  - split.
    + split; [congruence |].
      intros Hnd. rewrite NoDup_no_repeat in Hnd. by destruct (Hnd k x Hk).
    + intros i Hi. rewrite Hres in Hi. injection Hi as <-. by exists x.
Qed.

(** ** How a run can end *)

Lemma safe_ret (e : engine) {A} (a : A) : steps_safely e (ret a).
Proof. by intros st. Qed.

Lemma safe_bind (e : engine) {A B} (m : M A) (k : A -> M B) :
  steps_safely e m -> (forall a, steps_safely e (k a)) -> steps_safely e (bind m k).
Proof.
  intros Hm Hk st. specialize (Hm st). unfold bind.
  destruct (m st) as [[a|msg|ex] st']; [apply Hk | done | done].
Qed.

Lemma safe_run_command (e : engine) (c : command) :
  steps_safely e (run_command e c).
Proof.
  intros st. unfold run_command, raised_as_issued.
  destruct (e (log st) c) eqn:He; simpl; [done |]. by exists (log st).
Qed.

(** The three ways in which the work on a band goes on after the
    percentile query. *)
Lemma rescale_query_fails (e : engine) (o : options) (f : bool) (pid : Z)
      (lower_out upper_out rast rescaled_rast : string) (st : state) :
  e (log st) (quantile_command o rast) = None ->
  rescale e o f pid lower_out upper_out rast rescaled_rast st
  = (Raised (CalledModuleError (quantile_command o rast)),
     mkState (rm_rasters st) (log st ++ [quantile_command o rast])).
Proof.
  intros Hq. unfold quantile_command in *.
  unfold rescale, bind, run_command. by rewrite Hq.
Qed.

Lemma rescale_query_short (e : engine) (o : options) (f : bool) (pid : Z)
      (lower_out upper_out rast rescaled_rast : string) (st : state)
      (keys : list string) :
  e (log st) (quantile_command o rast) = Some keys ->
  (length keys < 2)%nat ->
  rescale e o f pid lower_out upper_out rast rescaled_rast st
  = (Raised IndexError,
     mkState (rm_rasters st) (log st ++ [quantile_command o rast])).
Proof.
  intros Hq Hlen. unfold quantile_command in *.
  unfold rescale, bind, run_command, lift, item. rewrite Hq.
  destruct keys as [|k0 [|k1 more]]; simpl in *; try done. lia.
Qed.

Lemma safe_rescale (e : engine) (o : options) (f : bool) (pid : Z)
      (lower_out upper_out rast rescaled_rast : string) :
  steps_safely e (rescale e o f pid lower_out upper_out rast rescaled_rast).
Proof.
  intros st. unfold raised_as_issued.
  destruct (e (log st) (quantile_command o rast)) as [keys|] eqn:Hq.
  - destruct keys as [|k0 [|k1 more]].
    1, 2: rewrite (rescale_query_short _ _ _ _ _ _ _ _ _ _ Hq) by (simpl; lia);
      simpl; eexists (log st), rast, _, _; repeat split; [exact Hq | simpl; lia].
    rewrite (rescale_run _ _ _ _ _ _ _ _ _ _ _ _ Hq). cbv zeta.
    destruct (e (log st ++ _) _) eqn:H1; simpl.
    + destruct (e (log st ++ [_; _]) _) eqn:H2; simpl; [done |].
      eexists (log st ++ [_; _]). split; [| exact H2]. by rewrite <- app_assoc.
    + eexists (log st ++ [_]). split; [| exact H1]. by rewrite <- app_assoc.
  - rewrite (rescale_query_fails _ _ _ _ _ _ _ _ _ Hq). simpl.
    by exists (log st).
Qed.

Lemma safe_rescale_all (e : engine) (o : options) (f : bool) (pid : Z)
      (lower_out upper_out : string) (rgb_in acc : list string) :
  steps_safely e (rescale_all e o f pid lower_out upper_out rgb_in acc).
Proof.
  revert acc. induction rgb_in as [|rast rest IH]; intros acc; simpl.
  - apply safe_ret.
  - apply safe_bind; [| intros _; apply IH].
    destruct (Py.contains _ _); [apply safe_ret | apply safe_rescale].
Qed.

Lemma safe_reconcile (e : engine) (a b c : string) :
  steps_safely e (reconcile e [a; b; c]).
Proof.
  unfold reconcile. rewrite len_set_3, find_duplicate_3.
  repeat split_decide; subst; simpl; try apply safe_ret; try congruence;
    (unfold item; simpl;
     apply (safe_bind e (lift (Ok _))); [by intros st |]; intros d;
     apply safe_bind; [apply safe_run_command | intros _; apply safe_ret]).
Qed.

(** [main] after its validation. *)
Lemma main_after_validation (e : engine) (o : options) (f : bool) (pid : Z)
      (lower_out upper_out : string) (st : state) :
  validate o = Ok ([red o; green o; blue o], (lower_out, upper_out)) ->
  main e o f pid st
  = bind (rescale_all e o f pid lower_out upper_out [red o; green o; blue o] [])
      (fun reclassified_rasters =>
         bind (reconcile e reclassified_rasters)
           (fun members =>
              bind (run_command e (i_group (output o) members))
                (fun _ => ret (msg_created (output o))))) st.
Proof. intros Hv. unfold main, bind at 1, lift. by rewrite Hv. Qed.

Lemma validate_never_raises (o : options) (ex : exn) : validate o <> Raised ex.
Proof.
  unfold validate. destruct (_ <? 2)%nat; [done |].
  pose proof (check_output_range_never_raises
                (Py.split "," (output_range o))) as Hn.
  destruct (check_output_range _) as [[a b]| |]; simpl; try done.
  intros [= <-]. by eapply Hn.
Qed.

Lemma validate_bands (o : options) (v : list string * (string * string)) :
  validate o = Ok v -> fst v = [red o; green o; blue o].
Proof.
  unfold validate. destruct (_ <? 2)%nat; [done |].
  destruct (check_output_range _) as [[x y]| |]; simpl; try done.
  by intros [= <-].
Qed.

Lemma rescale_all_value (e : engine) (o : options) (f : bool) (pid : Z)
      (lower_out upper_out : string) (rgb_in acc : list string) (st : state)
      (l : list string) :
  fst (rescale_all e o f pid lower_out upper_out rgb_in acc st) = Ok l ->
  l = acc ++ map (fun rast => rescaled_name rast (suffix o)) rgb_in.
Proof.
  revert acc st. induction rgb_in as [|rast rest IH]; intros acc st; simpl.
  - intros [= <-]. by rewrite app_nil_r.
  - unfold bind at 1. destruct (Py.contains _ _).
    + simpl. intros H%IH. by rewrite <- app_assoc in H.
    + destruct (rescale _ _ _ _ _ _ _ _ st) as [[[]|msg|ex] st'];
        simpl; try done.
      intros H%IH. by rewrite <- app_assoc in H.
Qed.

Lemma safe_main_rest (e : engine) (o : options) (f : bool) (pid : Z)
      (lower_out upper_out : string) :
  steps_safely e
    (bind (rescale_all e o f pid lower_out upper_out [red o; green o; blue o] [])
       (fun reclassified_rasters =>
          bind (reconcile e reclassified_rasters)
            (fun members =>
               bind (run_command e (i_group (output o) members))
                 (fun _ => ret (msg_created (output o)))))).
Proof.
  intros st. unfold bind at 1.
  pose proof (safe_rescale_all e o f pid lower_out upper_out
                [red o; green o; blue o] [] st) as Hsafe.
  pose proof (rescale_all_value e o f pid lower_out upper_out
                [red o; green o; blue o] [] st) as Hval.
  destruct (rescale_all _ _ _ _ _ _ _ _ st) as [[l|msg|ex] st1]; [| done | done].
  rewrite (Hval l eq_refl). simpl.
  apply safe_bind; [apply safe_reconcile |]. intros members.
  apply safe_bind; [apply safe_run_command | intros _; apply safe_ret].
Qed.

(** X2.  A run that ends in [grass.fatal] has done nothing: the message
    is one of the three validation messages, no command was issued and no
    name was registered. *)
Theorem fatal_before_any_command (e : engine) (o : options) (f : bool) (pid : Z)
        (msg : string) :
  fst (run_main e o f pid) = Fatal msg ->
  snd (run_main e o f pid) = mkState [] [] /\
  validate o = Fatal msg /\
  (msg = msg_bands \/ msg = msg_format \/
   exists lower_out_int upper_out_int,
     upper_out_int < lower_out_int /\ msg = msg_order lower_out_int upper_out_int).
Proof.
  unfold run_main. intros Hf.
  destruct (validate o) as [[rgb [lo up]]|msg'|ex] eqn:Hv.
  - pose proof (validate_bands o _ Hv) as Hb. simpl in Hb. subst rgb.
    rewrite (main_after_validation _ _ _ _ _ _ _ Hv) in Hf.
    pose proof (safe_main_rest e o f pid lo up (mkState [] [])) as Hsafe.
    unfold raised_as_issued in Hsafe. by rewrite Hf in Hsafe.
  - assert (Hmain : main e o f pid (mkState [] []) = (Fatal msg', mkState [] [])).
    { unfold main, bind, lift. by rewrite Hv. }
    rewrite Hmain in *. simpl in Hf. injection Hf as ->.
    split; [done |]. split; [done |].
    unfold validate in Hv. destruct (_ <? 2)%nat; [left; congruence |].
    right. unfold check_output_range, item, to_int in Hv.
    destruct (Py.split _ _) as [|t0 [|t1 rest]]; simpl in Hv;
      try (left; congruence).
    destruct (Py.int t0) as [lo|]; simpl in Hv; [| left; congruence].
    destruct (Py.int t1) as [hi|]; simpl in Hv; [| left; congruence].
    destruct (hi <? lo) eqn:Hlt; simpl in Hv; [| done].
    right. exists lo, hi. apply Z.ltb_lt in Hlt. split; [done | congruence].
  - by destruct (validate_never_raises o ex).
Qed.

Lemma fatal_before_any_command_witness :
  snd (run_main demo_engine (demo_options "b4" "b3" "b2" "255,0" "s") false 4242)
  = mkState [] [].
Proof.
  apply (fatal_before_any_command demo_engine
           (demo_options "b4" "b3" "b2" "255,0" "s") false 4242
           (msg_order 255 0)).
  vm_compute. reflexivity.
Defined.

(** X3.  A run that ends with an exception ends with the command issued
    last: either the engine failed on it ([CalledModuleError]), or it was
    a percentile query that gave fewer than two keys ([IndexError] at
    lines 150-151).  No other exception escapes: in particular the index
    found by the scan of lines 195-200 is never [None]. *)
Theorem exception_from_last_command (e : engine) (o : options) (f : bool) (pid : Z)
        (ex : exn) :
  fst (run_main e o f pid) = Raised ex ->
  (ex = IndexError /\ answered_short e (snd (run_main e o f pid))) \/
  (exists c, ex = CalledModuleError c /\ refused_last e c (snd (run_main e o f pid))).
Proof.
  unfold run_main. intros Hr.
  destruct (validate o) as [[rgb [lo up]]|msg'|ex'] eqn:Hv.
  - pose proof (validate_bands o _ Hv) as Hb. simpl in Hb. subst rgb.
    rewrite (main_after_validation _ _ _ _ _ _ _ Hv) in *.
    pose proof (safe_main_rest e o f pid lo up (mkState [] [])) as Hsafe.
    unfold raised_as_issued in Hsafe. rewrite Hr in Hsafe.
    destruct ex as [| | |c]; try done; [by left | right; by exists c].
  - assert (Hmain : main e o f pid (mkState [] []) = (Fatal msg', mkState [] [])).
    { unfold main, bind, lift. by rewrite Hv. }
    by rewrite Hmain in Hr.
  - by destruct (validate_never_raises o ex').
Qed.

Lemma exception_from_last_command_witness :
  (CalledModuleError
     (r_mapcalc "b4_tmp_4242 = if(b4 <= 10.000000, 10.000000,if(b4 >= 110.000000, 110.000000,b4))")
   = IndexError /\
   answered_short mapcalc_failing_engine
     (snd (run_main mapcalc_failing_engine
             (demo_options "b4" "b3" "b2" "0,255" "s") false 4242))) \/
  (exists c,
     CalledModuleError
       (r_mapcalc "b4_tmp_4242 = if(b4 <= 10.000000, 10.000000,if(b4 >= 110.000000, 110.000000,b4))")
     = CalledModuleError c /\
     refused_last mapcalc_failing_engine c
       (snd (run_main mapcalc_failing_engine
               (demo_options "b4" "b3" "b2" "0,255" "s") false 4242))).
Proof.
  apply (exception_from_last_command mapcalc_failing_engine
           (demo_options "b4" "b3" "b2" "0,255" "s") false 4242).
  vm_compute. reflexivity.
Defined.

(** ** One temporary raster per band *)

Global Instance temp_name_inj (pid : Z) : Inj (=) (=) (fun rast => temp_name rast pid).
Proof. intros a b H. unfold temp_name in H. by apply append_inv_tail in H. Qed.

Lemma fresh_bands_3 (sfx a b c : string) :
  fresh_bands sfx [a; b; c] [] =
  a :: (if decide (b = a) then [] else [b]) ++
       (if decide (c = a \/ c = b) then [] else [c]).
Proof.
  unfold fresh_bands, Py.contains. simpl.
  repeat case_bool_decide; repeat split_decide; try done; exfalso;
    list_members;
    repeat match goal with
           | H : context [rescaled_name _ _ = rescaled_name _ _] |- _ =>
               rewrite (rescaled_eq_iff (mkOptions "" "" "" "" "" "" "" sfx)) in H
           end; simpl in *; intuition congruence.
Qed.

Lemma fresh_bands_3_facts (sfx a b c : string) :
  NoDup (fresh_bands sfx [a; b; c] []) /\
  length (fresh_bands sfx [a; b; c] []) = Py.len_set [a; b; c] /\
  forall x, x ∈ fresh_bands sfx [a; b; c] [] <-> x ∈ [a; b; c].
Proof.
  rewrite fresh_bands_3, len_set_3.
  repeat split_decide; simpl; subst;
    (split; [| split]);
    try lia; try reflexivity;
    try (intros x; list_members; intuition congruence);
    repeat (apply NoDup_cons; split; [list_members; intuition congruence |]);
    try apply NoDup_nil_2; exfalso; intuition congruence.
Qed.

(** What the work on one band registers. *)
Lemma rescale_registers (e : engine) (o : options) (f : bool) (pid : Z)
      (lower_out upper_out rast rescaled_rast : string) (st : state) :
  (rm_rasters (snd (rescale e o f pid lower_out upper_out rast rescaled_rast st))
   = rm_rasters st /\
   forall u, fst (rescale e o f pid lower_out upper_out rast rescaled_rast st)
             <> Ok u) \/
  rm_rasters (snd (rescale e o f pid lower_out upper_out rast rescaled_rast st))
  = rm_rasters st ++ [temp_name rast pid].
Proof.
  destruct (e (log st) (quantile_command o rast)) as [keys|] eqn:Hq.
  - destruct keys as [|k0 [|k1 more]].
    1, 2: left;
      rewrite (rescale_query_short _ _ _ _ _ _ _ _ _ _ Hq) by (simpl; lia);
      by split.
    right. rewrite (rescale_run _ _ _ _ _ _ _ _ _ _ _ _ Hq). cbv zeta.
    destruct (e (log st ++ _) _); [| done].
    by destruct (e (log st ++ [_; _]) _).
  - left. rewrite (rescale_query_fails _ _ _ _ _ _ _ _ _ Hq). by split.
Qed.

Lemma rescale_all_cons (e : engine) (o : options) (f : bool) (pid : Z)
      (lower_out upper_out rast : string) (rest acc : list string) (st : state) :
  rescale_all e o f pid lower_out upper_out (rast :: rest) acc st =
  match (if Py.contains (rescaled_name rast (suffix o)) acc then ret tt
         else rescale e o f pid lower_out upper_out rast
                (rescaled_name rast (suffix o))) st with
  | (Ok _, st') =>
      rescale_all e o f pid lower_out upper_out rest
        (acc ++ [rescaled_name rast (suffix o)]) st'
  | (Fatal msg, st') => (Fatal msg, st')
  | (Raised ex, st') => (Raised ex, st')
  end.
Proof. reflexivity. Qed.

Lemma rescale_all_registers (e : engine) (o : options) (f : bool) (pid : Z)
      (lower_out upper_out : string) (rgb_in acc : list string) (st : state) :
  exists p,
    rm_rasters (snd (rescale_all e o f pid lower_out upper_out rgb_in acc st))
    = rm_rasters st ++ ((fun rast => temp_name rast pid) <$> p) /\
    p `prefix_of` fresh_bands (suffix o) rgb_in acc /\
    forall l,
      fst (rescale_all e o f pid lower_out upper_out rgb_in acc st) = Ok l ->
      p = fresh_bands (suffix o) rgb_in acc.
Proof.
  revert acc st. induction rgb_in as [|rast rest IH]; intros acc st.
  - exists []. simpl. by rewrite app_nil_r.
  - rewrite rescale_all_cons. simpl fresh_bands.
    destruct (Py.contains _ _); simpl.
    + apply IH.
    + destruct (rescale_registers e o f pid lower_out upper_out rast
                  (rescaled_name rast (suffix o)) st) as [[Hrm Hno] | Hrm].
      * destruct (rescale _ _ _ _ _ _ _ _ st) as [[u|msg|ex] st1];
          [by destruct (Hno u) | |];
          simpl in *; exists []; simpl; rewrite app_nil_r;
          (split; [done |]); (split; [apply prefix_nil | done]).
      * destruct (rescale _ _ _ _ _ _ _ _ st) as [[u|msg|ex] st1]; simpl in *.
        -- destruct (IH (acc ++ [rescaled_name rast (suffix o)]) st1)
             as (p & Hp & Hpre & Hok).
           exists (rast :: p). rewrite Hp, Hrm, <- app_assoc. simpl.
           split; [done |]. split; [by apply prefix_cons |].
           intros l Hl. f_equal. by eapply Hok.
        -- exists [rast]. simpl. split; [done |].
           split; [| done]. by apply prefix_cons, prefix_nil.
        -- exists [rast]. simpl. split; [done |].
           split; [| done]. by apply prefix_cons, prefix_nil.
Qed.

(** [m] leaves [rm_rasters] alone. *)
Lemma reconcile_keeps_rm (e : engine) (l : list string) (st : state) :
  rm_rasters (snd (reconcile e l st)) = rm_rasters st.
Proof.
  unfold reconcile. destruct (_ =? 2)%nat; [| done].
  destruct (find_duplicate _ _ _ _) as [i|]; [| done].
  unfold bind, lift, item, run_command, ret.
  destruct (l !! i); simpl; [| done]. by destruct (e _ _).
Qed.

(** [main] after its validation, step by step. *)
Lemma main_run (e : engine) (o : options) (f : bool) (pid : Z)
      (lower_out upper_out : string) (st : state) :
  validate o = Ok ([red o; green o; blue o], (lower_out, upper_out)) ->
  main e o f pid st =
  match rescale_all e o f pid lower_out upper_out [red o; green o; blue o] [] st with
  | (Ok l, st1) =>
      match reconcile e l st1 with
      | (Ok members, st2) =>
          match e (log st2) (i_group (output o) members) with
          | Some _ =>
              (Ok (msg_created (output o)),
               mkState (rm_rasters st2) (log st2 ++ [i_group (output o) members]))
          | None =>
              (Raised (CalledModuleError (i_group (output o) members)),
               mkState (rm_rasters st2) (log st2 ++ [i_group (output o) members]))
          end
      | (Fatal msg, st2) => (Fatal msg, st2)
      | (Raised ex, st2) => (Raised ex, st2)
      end
  | (Fatal msg, st1) => (Fatal msg, st1)
  | (Raised ex, st1) => (Raised ex, st1)
  end.
Proof.
  intros Hv. rewrite (main_after_validation _ _ _ _ _ _ _ Hv).
  unfold bind at 1.
  destruct (rescale_all _ _ _ _ _ _ _ _ _) as [[l|msg|ex] st1]; try done.
  unfold bind at 1.
  destruct (reconcile e l st1) as [[members|msg|ex] st2]; try done.
  unfold bind, run_command, ret. by destruct (e (log st2) _).
Qed.

Lemma main_invalid (e : engine) (o : options) (f : bool) (pid : Z)
      (msg : string) (st : state) :
  validate o = Fatal msg -> main e o f pid st = (Fatal msg, st).
Proof. intros Hv. unfold main, bind, lift. by rewrite Hv. Qed.

Lemma main_registers (e : engine) (o : options) (f : bool) (pid : Z) :
  exists p,
    rm_rasters (snd (run_main e o f pid)) = (fun rast => temp_name rast pid) <$> p /\
    p `prefix_of` fresh_bands (suffix o) [red o; green o; blue o] [] /\
    forall msg, fst (run_main e o f pid) = Ok msg ->
                p = fresh_bands (suffix o) [red o; green o; blue o] [].
Proof.
  unfold run_main.
  destruct (validate o) as [[rgb [lo up]]|msg'|ex'] eqn:Hv.
  - pose proof (validate_bands o _ Hv) as Hb. simpl in Hb. subst rgb.
    rewrite (main_run _ _ _ _ _ _ _ Hv).
    destruct (rescale_all_registers e o f pid lo up [red o; green o; blue o] []
                (mkState [] [])) as (p & Hp & Hpre & Hok).
    exists p.
    destruct (rescale_all _ _ _ _ _ _ _ _ _) as [[l|msg|ex] st1];
      simpl in *; [| by repeat split | by repeat split].
    pose proof (reconcile_keeps_rm e l st1) as Hrec.
    destruct (reconcile e l st1) as [[members|msg|ex] st2]; simpl in *;
      [| rewrite Hrec; split; [done |]; by split
       | rewrite Hrec; split; [done |]; by split].
    destruct (e (log st2) _); simpl; rewrite Hrec;
      (split; [done |]); (split; [done |]); intros; by eapply Hok.
  - exists []. rewrite (main_invalid _ _ _ _ _ _ Hv). simpl.
    split; [done |]. split; [apply prefix_nil | done].
  - by destruct (validate_never_raises o ex').
Qed.

(** X4.  In every run, however it ends, the registered names are the
    temporary names of the first bands worked on, in order: a prefix of
    the temporaries of the distinct bands in order of first use.  So no
    name is registered twice and there are at most as many as there are
    distinct bands; after a run that ends normally there is exactly one
    per distinct band. *)
Theorem one_temporary_per_band (e : engine) (o : options) (f : bool) (pid : Z) :
  rm_rasters (snd (run_main e o f pid))
    `prefix_of` ((fun rast => temp_name rast pid)
                   <$> fresh_bands (suffix o) [red o; green o; blue o] []) /\
  NoDup (rm_rasters (snd (run_main e o f pid))) /\
  (length (rm_rasters (snd (run_main e o f pid)))
   <= Py.len_set [red o; green o; blue o])%nat /\
  (forall x, x ∈ fresh_bands (suffix o) [red o; green o; blue o] []
             <-> x ∈ [red o; green o; blue o]) /\
  (forall msg,
     fst (run_main e o f pid) = Ok msg ->
     rm_rasters (snd (run_main e o f pid))
     = (fun rast => temp_name rast pid)
         <$> fresh_bands (suffix o) [red o; green o; blue o] [] /\
     length (rm_rasters (snd (run_main e o f pid)))
     = Py.len_set [red o; green o; blue o]).
Proof.
  destruct (main_registers e o f pid) as (p & Hp & [k Hk] & Hok).
  destruct (fresh_bands_3_facts (suffix o) (red o) (green o) (blue o))
    as (Hnd & Hlen & Hmem).
  rewrite Hp.
  split; [| split; [| split; [| split]]].
  - exists ((fun rast => temp_name rast pid) <$> k). by rewrite Hk, fmap_app.
  - apply (NoDup_fmap_2 _). rewrite Hk in Hnd. by apply NoDup_app in Hnd as [? _].
  - rewrite length_fmap, <- Hlen, Hk, length_app. lia.
  - exact Hmem.
  - intros msg Hmsg. rewrite (Hok msg Hmsg). split; [done |].
    by rewrite length_fmap.
Qed.

(** ** Runs that end normally *)

Lemma well_behaved_no_exception (e : engine) {A} (x : result A * state) :
  well_behaved e -> raised_as_issued e x -> exists a, fst x = Ok a.
Proof.
  intros [Hnone Hkeys]. unfold raised_as_issued.
  destruct (fst x) as [a|msg|[| | |c]]; try done; [by exists a | |].
  - intros (history & rast & percentiles & keys & _ & He & Hlen).
    apply Hkeys in He. lia.
  - intros (history & _ & He). by apply Hnone in He.
Qed.

Lemma reconcile_value (e : engine) (a b c : string) (st : state) (members : list string) :
  fst (reconcile e [a; b; c] st) = Ok members -> members = group_members a b c.
Proof.
  assert (Hspec : spec (grows (fun _ => True) (fun _ => True))
                    (fun l => l = group_members a b c) (reconcile e [a; b; c])).
  { apply (reconcile_spec e (grows (fun _ => True) (fun _ => True))).
    intros raster. by apply grows_run_command. }
  apply (Hspec st).
Qed.

(** X5.  A run that ends normally has passed the validation, prints
    the message naming the requested group, and its last command is the
    [i.group] of that group with the three reconciled members. *)
Theorem normal_end_creates_group (e : engine) (o : options) (f : bool) (pid : Z)
        (msg : string) :
  fst (run_main e o f pid) = Ok msg ->
  msg = msg_created (output o) /\
  (exists lower_out upper_out,
     validate o = Ok ([red o; green o; blue o], (lower_out, upper_out))) /\
  last (log (snd (run_main e o f pid)))
  = Some (i_group (output o)
            (group_members (red_rescaled o) (green_rescaled o) (blue_rescaled o))).
Proof.
  unfold run_main.
  destruct (validate o) as [[rgb [lo up]]|msg'|ex'] eqn:Hv.
  - pose proof (validate_bands o _ Hv) as Hb. simpl in Hb. subst rgb.
    rewrite (main_run _ _ _ _ _ _ _ Hv).
    pose proof (rescale_all_value e o f pid lo up [red o; green o; blue o] []
                  (mkState [] [])) as Hval.
    destruct (rescale_all _ _ _ _ _ _ _ _ _) as [[l|m|ex] st1]; try done.
    rewrite (Hval l eq_refl). simpl.
    pose proof (reconcile_value e (rescaled_name (red o) (suffix o))
                  (rescaled_name (green o) (suffix o))
                  (rescaled_name (blue o) (suffix o)) st1) as Hmem.
    destruct (reconcile e _ st1) as [[members|m|ex] st2]; try done.
    rewrite (Hmem members eq_refl).
    destruct (e (log st2) _); simpl; [| done].
    intros [= <-]. split; [done |]. split; [by exists lo, up |].
    by rewrite last_snoc.
  - by rewrite (main_invalid _ _ _ _ _ _ Hv).
  - by destruct (validate_never_raises o ex').
Qed.

Lemma normal_end_creates_group_witness :
  "Created output group <rgb>" = msg_created "rgb" /\
  (exists lower_out upper_out,
     validate (demo_options "b4" "b3" "b4" "0,255" "s")
     = Ok (["b4"; "b3"; "b4"], (lower_out, upper_out))) /\
  last (log (snd (run_main demo_engine (demo_options "b4" "b3" "b4" "0,255" "s")
                    false 4242)))
  = Some (i_group "rgb" (group_members "b4_s" "b3_s" "b4_s")).
Proof.
  apply (normal_end_creates_group demo_engine
           (demo_options "b4" "b3" "b4" "0,255" "s") false 4242).
  vm_compute. reflexivity.
Defined.

(** X6.  On an engine where no module fails and every percentile query
    gives at least two keys, every run with accepted options ends
    normally, with the message naming the group. *)
Theorem accepted_run_ends_normally (e : engine) (o : options) (f : bool) (pid : Z)
        (lower_out upper_out : string) :
  well_behaved e ->
  validate o = Ok ([red o; green o; blue o], (lower_out, upper_out)) ->
  fst (run_main e o f pid) = Ok (msg_created (output o)).
Proof.
  intros Hwb Hv. unfold run_main.
  pose proof (safe_main_rest e o f pid lower_out upper_out (mkState [] [])) as Hsafe.
  rewrite <- (main_after_validation _ _ _ _ _ _ _ Hv) in Hsafe.
  destruct (well_behaved_no_exception e _ Hwb Hsafe) as [msg Hmsg].
  rewrite Hmsg. f_equal.
  rewrite (main_run _ _ _ _ _ _ _ Hv) in Hmsg.
  destruct (rescale_all _ _ _ _ _ _ _ _ _) as [[l|m|ex] st1]; try done.
  destruct (reconcile e l st1) as [[members|m|ex] st2]; try done.
  destruct (e (log st2) _); simpl in Hmsg; [| done]. by injection Hmsg.
Qed.

Lemma demo_engine_well_behaved : well_behaved demo_engine.
Proof.
  split.
  - intros history c. by destruct c.
  - intros history rast percentiles keys [= <-]. simpl. lia.
Qed.

Lemma accepted_run_ends_normally_witness :
  fst (run_main demo_engine (demo_options "b4" "b3" "b2" "0,255" "s") true 4242)
  = Ok (msg_created "rgb").
Proof.
  apply (accepted_run_ends_normally demo_engine
           (demo_options "b4" "b3" "b2" "0,255" "s") true 4242 "0" "255").
  - exact demo_engine_well_behaved.
  - vm_compute. reflexivity.
Defined.

(** ** The order of the commands *)

Lemma rescale_log (e : engine) (o : options) (f : bool) (pid : Z)
      (lower_out upper_out rast rescaled_rast : string) :
  spec (grows (fun c => is_quantile c \/ is_mapcalc c) (fun _ => True))
    (fun _ => True)
    (rescale e o f pid lower_out upper_out rast rescaled_rast).
Proof.
  intros st. split; [| done]. unfold grows.
  destruct (e (log st) (quantile_command o rast)) as [keys|] eqn:Hq.
  - destruct keys as [|k0 [|k1 more]].
    1, 2: rewrite (rescale_query_short _ _ _ _ _ _ _ _ _ _ Hq) by (simpl; lia);
      exists [quantile_command o rast], []; simpl; rewrite app_nil_r;
      repeat split; try done; repeat constructor.
    rewrite (rescale_run _ _ _ _ _ _ _ _ _ _ _ _ Hq). cbv zeta.
    destruct (e (log st ++ _) _).
    + destruct (e (log st ++ [_; _]) _);
        eexists [_; _; _], [_]; simpl;
        repeat split; try done; repeat constructor; simpl; tauto.
    + eexists [_; _], [_]; simpl.
      repeat split; try done; repeat constructor; simpl; tauto.
  - rewrite (rescale_query_fails _ _ _ _ _ _ _ _ _ Hq).
    exists [quantile_command o rast], []. simpl. rewrite app_nil_r.
    repeat split; try done. repeat constructor.
Qed.

Lemma reconcile_log (e : engine) (a b c : string) (st : state) :
  exists copies,
    log (snd (reconcile e [a; b; c] st)) = log st ++ copies /\
    (copies = [] \/
     (~ NoDup [a; b; c] /\
      exists x, x ∈ [a; b; c] /\ copies = [g_copy (x +:+ "," +:+ copied x)])).
Proof.
  unfold reconcile. rewrite len_set_3, find_duplicate_3.
  repeat split_decide; subst; simpl;
    try (exists []; rewrite app_nil_r; split; [done | by left]);
    try congruence;
    (unfold item, bind, lift, run_command, ret; simpl;
     eexists [_]; split; [by destruct (e _ _) |];
     right; split;
     [rewrite NoDup_3; intuition congruence
     | eexists; split; [| reflexivity]; list_members; tauto]).
Qed.

(** X7.  The commands of [main] come in three phases: first percentile
    queries and [r.mapcalc] commands only; then at most one [g.copy], of
    a rescaled raster to its [_copied] name, and none when the three
    bands are distinct; then at most one [i.group].  In particular [main]
    never issues [g.remove]. *)
Theorem commands_in_three_phases (e : engine) (o : options) (f : bool) (pid : Z) :
  exists rescaling copies grouping,
    log (snd (run_main e o f pid)) = rescaling ++ copies ++ grouping /\
    Forall (fun c => is_quantile c \/ is_mapcalc c) rescaling /\
    (copies = [] \/
     (~ NoDup [red o; green o; blue o] /\
      exists x,
        x ∈ [red_rescaled o; green_rescaled o; blue_rescaled o] /\
        copies = [g_copy (x +:+ "," +:+ copied x)])) /\
    (grouping = [] \/
     grouping = [i_group (output o)
                   (group_members (red_rescaled o) (green_rescaled o)
                      (blue_rescaled o))]).
Proof.
  unfold run_main.
  destruct (validate o) as [[rgb [lo up]]|msg'|ex'] eqn:Hv.
  - pose proof (validate_bands o _ Hv) as Hb. simpl in Hb. subst rgb.
    rewrite (main_run _ _ _ _ _ _ _ Hv).
    assert (Hall : spec (grows (fun c => is_quantile c \/ is_mapcalc c)
                           (fun _ => True))
                     (fun l => l = [] ++ map (fun rast => rescaled_name rast (suffix o))
                                           [red o; green o; blue o])
                     (rescale_all e o f pid lo up [red o; green o; blue o] [])).
    { apply (rescale_all_spec e o f pid
               (grows (fun c => is_quantile c \/ is_mapcalc c) (fun _ => True)));
        [intros; apply rescale_log | done]. }
    destruct (Hall (mkState [] [])) as [(cs & rs & Hlog & HP & _) Hval].
    cbn [log app] in Hlog. cbn [app map] in Hval.
    destruct (rescale_all _ _ _ _ _ _ _ _ _) as [[l|m|ex] st1];
      cbn [fst snd] in *.
    2, 3: exists cs, [], []; rewrite !app_nil_r;
      repeat split; try done; by left.
    rewrite (Hval l eq_refl).
    destruct (reconcile_log e (rescaled_name (red o) (suffix o))
                (rescaled_name (green o) (suffix o))
                (rescaled_name (blue o) (suffix o)) st1) as (copies & Hcopies & Hshape).
    pose proof (reconcile_value e (rescaled_name (red o) (suffix o))
                  (rescaled_name (green o) (suffix o))
                  (rescaled_name (blue o) (suffix o)) st1) as Hmem.
    assert (Hshape' :
              copies = [] \/
              (~ NoDup [red o; green o; blue o] /\
               exists x,
                 x ∈ [red_rescaled o; green_rescaled o; blue_rescaled o] /\
                 copies = [g_copy (x +:+ "," +:+ copied x)])).
    { destruct Hshape as [-> | [Hnd Hx]]; [by left | right].
      split; [| exact Hx].
      intros Hnd'. apply Hnd. rewrite NoDup_3 in *.
      rewrite !rescaled_eq_iff. exact Hnd'. }
    destruct (reconcile e _ st1) as [[members|m|ex] st2]; cbn [fst snd] in *.
    2, 3: exists cs, copies, []; rewrite app_nil_r, Hcopies, Hlog;
      repeat split; try done; by left.
    rewrite (Hmem members eq_refl).
    destruct (e (log st2) _); cbn [snd log];
      (eexists cs, copies, [_]; rewrite Hcopies, Hlog, <- app_assoc;
       repeat split; try done; by right).
  - rewrite (main_invalid _ _ _ _ _ _ Hv). simpl.
    exists [], [], []. repeat split; try done; by left.
  - by destruct (validate_never_raises o ex').
Qed.

(** ** More on the hook at exit *)

(** Registered names without a raster cost no command, on any engine. *)
Lemma cleanup_nothing_to_do (e : engine) (rm : list string) (rasters : gset string)
      (issued : list command) :
  (forall name, name ∈ rm -> name ∉ rasters) ->
  cleanup e rm rasters issued = (Ok tt, (rasters, issued)).
Proof.
  induction rm as [|rmrast rest IH]; intros Hno; simpl; [done |].
  rewrite bool_decide_eq_false_2 by (apply Hno; by left).
  apply IH. intros name Hn. apply Hno. by right.
Qed.

Lemma cleanup_normal_end (e : engine) (rm : list string) (rasters : gset string)
      (issued : list command) :
  fst (cleanup e rm rasters issued) = Ok tt ->
  fst (snd (cleanup e rm rasters issued)) = rasters ∖ list_to_set rm.
Proof.
  revert rasters issued.
  induction rm as [|rmrast rest IH]; intros rasters issued; simpl.
  - intros _. set_solver.
  - case_bool_decide as Hex.
    + destruct (e issued (g_remove rmrast)); [| done].
      intros H%IH. rewrite H. set_solver.
    + intros H%IH. rewrite H. set_solver.
Qed.

(** X8.  Running the hook again after it ended normally does nothing:
    no command is issued and no raster disappears, whatever the engine
    would answer. *)
Theorem cleanup_twice (e : engine) (rm : list string) (rasters : gset string)
        (issued : list command) :
  fst (cleanup e rm rasters issued) = Ok tt ->
  cleanup e rm (fst (snd (cleanup e rm rasters issued)))
    (snd (snd (cleanup e rm rasters issued)))
  = (Ok tt, snd (cleanup e rm rasters issued)).
Proof.
  intros Hok. rewrite cleanup_nothing_to_do.
  - by destruct (cleanup e rm rasters issued) as [r [rs cs]].
  - intros name Hn. rewrite (cleanup_normal_end _ _ _ _ Hok). set_solver.
Qed.

Lemma cleanup_twice_witness :
  cleanup demo_engine ["b4_tmp_1"; "b3_tmp_1"]
    (fst (snd (cleanup demo_engine ["b4_tmp_1"; "b3_tmp_1"]
                 {["b4_tmp_1"; "b4_s"]} [])))
    (snd (snd (cleanup demo_engine ["b4_tmp_1"; "b3_tmp_1"]
                 {["b4_tmp_1"; "b4_s"]} [])))
  = (Ok tt, snd (cleanup demo_engine ["b4_tmp_1"; "b3_tmp_1"]
                   {["b4_tmp_1"; "b4_s"]} [])).
Proof.
  apply (cleanup_twice demo_engine ["b4_tmp_1"; "b3_tmp_1"]
           {["b4_tmp_1"; "b4_s"]} []).
  vm_compute. reflexivity.
Defined.

(** X9.  When the hook ends with an exception, it is the
    [CalledModuleError] of a [g.remove] for a registered raster that
    exists; that command is the last one issued, the raster is still
    there, and so is every raster registered after it: only the rasters
    registered before it are gone. *)
Theorem cleanup_stops_at_failure (e : engine) (rm : list string)
        (rasters : gset string) (issued : list command) (ex : exn) :
  fst (cleanup e rm rasters issued) = Raised ex ->
  exists before name after,
    rm = before ++ name :: after /\
    ex = CalledModuleError (g_remove name) /\
    name ∈ rasters /\ (name ∉ before) /\
    fst (snd (cleanup e rm rasters issued)) = rasters ∖ list_to_set before /\
    last (snd (snd (cleanup e rm rasters issued))) = Some (g_remove name).
Proof.
  revert rasters issued.
  induction rm as [|rmrast rest IH]; intros rasters issued; simpl; [done |].
  case_bool_decide as Hex.
  - destruct (e issued (g_remove rmrast)) eqn:He.
    + intros (before & name & after & -> & -> & Hin & Hnot & Hstore & Hlast)%IH.
      exists (rmrast :: before), name, after.
      repeat split; try done; [set_solver | set_solver |].
      rewrite Hstore. set_solver.
    + simpl. intros [= <-]. exists [], rmrast, rest.
      repeat split; try done; [set_solver | set_solver |].
      by rewrite last_snoc.
  - intros (before & name & after & -> & -> & Hin & Hnot & Hstore & Hlast)%IH.
    exists (rmrast :: before), name, after.
    repeat split; try done; [set_solver |].
    rewrite Hstore. set_solver.
Qed.

Lemma cleanup_stops_at_failure_witness :
  exists before name after,
    ["b4_tmp_1"; "b3_tmp_1"; "b2_tmp_1"] = before ++ name :: after /\
    CalledModuleError (g_remove "b3_tmp_1") = CalledModuleError (g_remove name) /\
    name ∈ ({["b3_tmp_1"; "b2_tmp_1"]} : gset string) /\ (name ∉ before) /\
    fst (snd (cleanup failing_engine ["b4_tmp_1"; "b3_tmp_1"; "b2_tmp_1"]
                {["b3_tmp_1"; "b2_tmp_1"]} []))
    = {["b3_tmp_1"; "b2_tmp_1"]} ∖ list_to_set before /\
    last (snd (snd (cleanup failing_engine ["b4_tmp_1"; "b3_tmp_1"; "b2_tmp_1"]
                      {["b3_tmp_1"; "b2_tmp_1"]} [])))
    = Some (g_remove name).
Proof.
  apply (cleanup_stops_at_failure failing_engine
           ["b4_tmp_1"; "b3_tmp_1"; "b2_tmp_1"] {["b3_tmp_1"; "b2_tmp_1"]} []).
  vm_compute. reflexivity.
Defined.

(** ** From the cell of a band to the cell of its rescaled raster *)

Lemma int_part_digits (acc : Z) (s : string) :
  exists ds,
    String.list_ascii_of_string s
    = ds ++ String.list_ascii_of_string (snd (Mapcalc.int_part acc s)) /\
    Forall numeric_char ds.
Proof.
  revert acc. induction s as [|c s IH]; intros acc; simpl.
  - by exists [].
  - destruct (Py.digit c) as [v|] eqn:Hc.
    + destruct (IH (10 * acc + v)) as (ds & Hds & Hall).
      exists (c :: ds). rewrite Hds at 1. split; [done |].
      constructor; [| done]. left. by rewrite Hc.
    + by exists [].
Qed.

Lemma frac_part_digits (num : Z) (den : positive) (s : string) (r : Z * positive) :
  Mapcalc.frac_part num den s = Some r ->
  Forall numeric_char (String.list_ascii_of_string s).
Proof.
  revert num den. induction s as [|c s IH]; intros num den; simpl.
  - by constructor.
  - destruct (Py.digit c) as [v|] eqn:Hc; [| done].
    intros H%IH. constructor; [| done]. left. by rewrite Hc.
Qed.

Lemma unsigned_number_chars (s : string) (q : Q) :
  Mapcalc.unsigned_number s = Some q ->
  Forall numeric_char (String.list_ascii_of_string s).
Proof.
  unfold Mapcalc.unsigned_number. destruct s as [|c s]; [done |].
  destruct (Py.digit c); [| done].
  destruct (int_part_digits 0 (String c s)) as (ds & Hds & Hall).
  destruct (Mapcalc.int_part 0 (String c s)) as [n rest]. simpl in Hds.
  destruct rest as [|d fr].
  - intros _. simpl. rewrite Hds. simpl. by rewrite app_nil_r.
  - destruct (Ascii.eqb_spec d "."%char) as [-> | Hd]; [| done].
    destruct (Mapcalc.frac_part 0 1 fr) as [[num den]|] eqn:Hfr; [| done].
    intros _. simpl. rewrite Hds. apply Forall_app. split; [done |].
    simpl. constructor; [right; by left |]. by eapply frac_part_digits.
Qed.

Lemma number_chars (s : string) (q : Q) :
  Mapcalc.number s = Some q ->
  Forall numeric_char (String.list_ascii_of_string s).
Proof.
  unfold Mapcalc.number. destruct s as [|c t]; [done |].
  destruct (Ascii.eqb_spec c "-"%char) as [-> | Hc].
  - destruct (Mapcalc.unsigned_number t) as [q'|] eqn:Ht; [| done].
    intros _. simpl. constructor; [right; by right |].
    by eapply unsigned_number_chars.
  - apply unsigned_number_chars.
Qed.

(** The name of a temporary raster is never read as a number. *)
Lemma temp_name_not_number (rast : string) (pid : Z) :
  Mapcalc.number (temp_name rast pid) = None.
Proof.
  destruct (Mapcalc.number (temp_name rast pid)) as [q|] eqn:Hn; [| done].
  apply number_chars in Hn. unfold temp_name in Hn.
  rewrite !list_of_append, Forall_app in Hn. destruct Hn as [_ Hn].
  simpl in Hn. apply Forall_cons in Hn as [[H | [H | H]] _]; [| done | done].
  by vm_compute in H.
Qed.


(** In the exact reading the name of a temporary raster is a map. *)
Lemma exact_temp_is_map (rast : string) (pid : Z) :
  Evaluator.literal Evaluator.exact (temp_name rast pid) = None.
Proof. apply temp_name_not_number. Qed.

(** After the two commands of a band, the rescaled raster holds the
    rescaling of the clamped band cell. *)
Lemma two_commands_value (A : Evaluator.arith) (f : bool) (m : Evaluator.cells A)
      (rast temp rescaled_rast lower_in upper_in upper_out lower_out : string)
      (x a b u l : Evaluator.num A) :
  Evaluator.literal A temp = None ->
  Evaluator.eval A m (Mapcalc.Atom rast) = Some x ->
  Evaluator.literal A lower_in = Some a ->
  Evaluator.literal A upper_in = Some b ->
  Evaluator.literal A upper_out = Some u ->
  Evaluator.literal A lower_out = Some l ->
  Evaluator.run rescaled_rast
    (Mapcalc.resc f temp lower_in upper_in upper_out lower_out)
    (Evaluator.run temp (Mapcalc.clamp rast lower_in upper_in) m)
    rescaled_rast
  = Evaluator.rescaled A f (Evaluator.clamped A x a b) a b u l.
Proof.
  intros Ht Hx Ha Hb Hu Hl. rewrite run_same.
  assert (Hlit : forall (m' : Evaluator.cells A) text v,
             Evaluator.literal A text = Some v ->
             Evaluator.eval A m' (Mapcalc.Atom text) = Some v).
  { intros m' text v H. cbn [Evaluator.eval]. by rewrite H. }
  assert (Hc : Evaluator.eval A
                 (Evaluator.run temp (Mapcalc.clamp rast lower_in upper_in) m)
                 (Mapcalc.Atom temp)
               = Some (Evaluator.clamped A x a b)).
  { cbn [Evaluator.eval]. rewrite Ht, run_same.
    apply eval_clamped; [done | by apply Hlit | by apply Hlit]. }
  pose proof (eval_scaled A _ temp lower_in upper_in upper_out lower_out
                _ a b u l Hc (Hlit _ _ _ Ha) (Hlit _ _ _ Hb)
                (Hlit _ _ _ Hu) (Hlit _ _ _ Hl)) as He.
  unfold Evaluator.rescaled, Mapcalc.resc. destruct f.
  - rewrite He. by destruct (Evaluator.scaled A _ a b u l).
  - cbn [Evaluator.eval]. by rewrite He.
Qed.



(** *** The exact rationals are such an arithmetic *)




(** X10.  The two expressions of a band, one after the other.  When the
    percentile query of a band is answered and the clamp command is
    accepted, [rescale] issues the query, then [temp = clamp] and then
    [rescaled = formula], where the second expression reads the raster
    the first one wrote.  Whatever the arithmetic, if the evaluator takes
    the name of the temporary raster for a map and the four texts for the
    constants [a], [b], [u] and [l], then where the band has the value
    [x] the two commands leave in the rescaled raster the quotient of
    [c - a] by [b - a], times [u], plus [l], for the clamped value [c] of
    [x], rounded when the flag is not set; no other cell matters. *)
Theorem clamp_then_rescale (e : engine) (o : options) (f : bool) (pid : Z)
        (lower_out upper_out rast rescaled_rast : string) (st : state)
        (k0 k1 : string) (more : list string) :
  e (log st) (quantile_command o rast) = Some (k0 :: k1 :: more) ->
  e (log st ++ [quantile_command o rast])
    (r_mapcalc (clamp_expression (temp_name rast pid) rast
                  (threshold k0) (threshold k1))) <> None ->
  let temp := temp_name rast pid in
  let first := Mapcalc.clamp rast (threshold k0) (threshold k1) in
  let second :=
    Mapcalc.resc f temp (threshold k0) (threshold k1) upper_out lower_out in
  log (snd (rescale e o f pid lower_out upper_out rast rescaled_rast st))
  = log st ++
    [quantile_command o rast;
     r_mapcalc (Mapcalc.assign temp first);
     r_mapcalc (Mapcalc.assign rescaled_rast second)] /\
  forall (A : Evaluator.arith) (m : Evaluator.cells A)
         (x a b u l : Evaluator.num A),
    Evaluator.literal A temp = None ->
    Evaluator.eval A m (Mapcalc.Atom rast) = Some x ->
    Evaluator.literal A (threshold k0) = Some a ->
    Evaluator.literal A (threshold k1) = Some b ->
    Evaluator.literal A upper_out = Some u ->
    Evaluator.literal A lower_out = Some l ->
    let c :=
      if Evaluator.nonzero A (Evaluator.le A x a) then a
      else if Evaluator.nonzero A (Evaluator.ge A x b) then b else x in
    let s :=
      Evaluator.bin (Evaluator.add A)
        (Evaluator.bin (Evaluator.mul A)
           (Evaluator.bin (Evaluator.div A)
              (Evaluator.sub A c a) (Evaluator.sub A b a))
           (Some u))
        (Some l) in
    Evaluator.run rescaled_rast second (Evaluator.run temp first m) rescaled_rast
    = (if f then s
       else match s with Some y => Evaluator.round A y | None => None end) /\
    forall m' : Evaluator.cells A,
      Evaluator.eval A m' (Mapcalc.Atom rast) = Some x ->
      Evaluator.run rescaled_rast second (Evaluator.run temp first m')
        rescaled_rast
      = Evaluator.run rescaled_rast second (Evaluator.run temp first m)
          rescaled_rast.
Proof.
  intros Hq Hc temp first second. split.
  - unfold first, second, temp. rewrite <- show_clamp, <- show_resc.
    by apply (rescale_three_commands _ _ _ _ _ _ _ _ _ k0 k1 more).
  - intros A m x a b u l Ht Hx Ha Hb Hu Hl c s.
    assert (Hv : forall n : Evaluator.cells A,
               Evaluator.eval A n (Mapcalc.Atom rast) = Some x ->
               Evaluator.run rescaled_rast second (Evaluator.run temp first n)
                 rescaled_rast
               = if f then s
                 else match s with
                      | Some y => Evaluator.round A y
                      | None => None
                      end).
    { intros n Hn. unfold first, second.
      rewrite (two_commands_value A f n rast temp rescaled_rast _ _ _ _
                 x a b u l Ht Hn Ha Hb Hu Hl).
      unfold Evaluator.rescaled, Evaluator.scaled, Evaluator.clamped.
      fold c. fold s. by destruct s, f. }
    split; [by apply Hv |].
    intros m' Hx'. by rewrite !Hv.
Qed.

Lemma clamp_then_rescale_witness :
  Evaluator.run (A := Evaluator.exact) "b4_s"
    (Mapcalc.resc false "b4_tmp_4242" "10.000000" "110.000000" "255" "0")
    (Evaluator.run "b4_tmp_4242" (Mapcalc.clamp "b4" "10.000000" "110.000000")
       (Evaluator.only (A := Evaluator.exact) "b4" 200%Q))
    "b4_s"
  = Some 255%Q.
Proof.
  pose proof (clamp_then_rescale demo_engine
                (demo_options "b4" "b3" "b2" "0,255" "s") false 4242
                "0" "255" "b4" "b4_s" (mkState [] [])
                "0:2.000000:10.000000" "1:98.000000:110.000000" []
                eq_refl ltac:(discriminate))
    as [_ H].
  exact (proj1 (H Evaluator.exact
                  (Evaluator.only (A := Evaluator.exact) "b4" 200%Q) 200%Q
                  (10000000 # 1000000)%Q (110000000 # 1000000)%Q 255%Q 0%Q
                  eq_refl eq_refl eq_refl eq_refl eq_refl eq_refl)).
Defined.





(** *** Two arithmetics on the same cells *)

(** The evaluator over the rationals is the instance [exact]. *)
Lemma eval_exact (m : Mapcalc.cells) (x : Mapcalc.expr) :
  Evaluator.eval Evaluator.exact m x = Mapcalc.eval m x.
Proof.
  induction x as [text | a IHa | a IHa b IHb | a IHa b IHb | a IHa b IHb
                 | a IHa b IHb | a IHa b IHb | a IHa b IHb
                 | c IHc t IHt e IHe | a IHa];
    cbn [Evaluator.eval Mapcalc.eval];
    rewrite ?IHa, ?IHb, ?IHc, ?IHt, ?IHe; try done.
  destruct (Mapcalc.eval m c) as [v|]; [| done]. cbn.
  by destruct (Qeq_bool v 0).
Qed.

(** X14.  The worked example on the commands [rescale] issues, under
    both arithmetics.  For a band whose percentile query answers 10 and
    110, with the range 0,255 and without the flag, [rescale] issues the
    query, the clamp into the temporary raster and the rounded rescale;
    over doubles as over the rationals these two commands turn the cells
    10, 110, 5, 200 and 60 into 0, 255, 0, 255 and 128. *)
Theorem worked_example_both_arithmetics :
  let first := Mapcalc.clamp "b4" "10.000000" "110.000000" in
  let second :=
    Mapcalc.resc false "b4_tmp_4242" "10.000000" "110.000000" "255" "0" in
  log (snd (rescale demo_engine (demo_options "b4" "b3" "b2" "0,255" "s") false
              4242 "0" "255" "b4" "b4_s" (mkState [] [])))
  = [r_quantile "b4" "2,98";
     r_mapcalc (Mapcalc.assign "b4_tmp_4242" first);
     r_mapcalc (Mapcalc.assign "b4_s" second)] /\
  Forall
    (fun cell : Z * Z =>
       Evaluator.run (A := Evaluator.binary64) "b4_s" second
         (Evaluator.run "b4_tmp_4242" first
            (Evaluator.only (A := Evaluator.binary64) "b4"
               (Evaluator.of_Z (fst cell))))
         "b4_s"
       = Some (Evaluator.of_Z (snd cell)) /\
       Evaluator.run (A := Evaluator.exact) "b4_s" second
         (Evaluator.run "b4_tmp_4242" first
            (Evaluator.only (A := Evaluator.exact) "b4" (inject_Z (fst cell))))
         "b4_s"
       = Some (inject_Z (snd cell)))
    [(10, 0); (110, 255); (5, 0); (200, 255); (60, 128)].
Proof.
  split; [vm_compute; reflexivity |].
  repeat constructor; vm_compute; reflexivity.
Qed.

(** The arithmetic matters in between: with thresholds 0 and 40 and the
    range 0,100 the cell 23 is worth 57.5 over the rationals, which rounds
    to 58, while over doubles the product falls just below and rounds to
    57. *)
Example arithmetic_matters :
  Evaluator.run (A := Evaluator.exact) "b4_s"
    (Mapcalc.resc false "b4_tmp_4242" "0.000000" "40.000000" "100" "0")
    (Evaluator.run "b4_tmp_4242" (Mapcalc.clamp "b4" "0.000000" "40.000000")
       (Evaluator.only (A := Evaluator.exact) "b4" 23%Q))
    "b4_s"
  = Some 58%Q /\
  Evaluator.run (A := Evaluator.binary64) "b4_s"
    (Mapcalc.resc false "b4_tmp_4242" "0.000000" "40.000000" "100" "0")
    (Evaluator.run "b4_tmp_4242" (Mapcalc.clamp "b4" "0.000000" "40.000000")
       (Evaluator.only (A := Evaluator.binary64) "b4" (Evaluator.of_Z 23)))
    "b4_s"
  = Some (Evaluator.of_Z 57).
Proof. split; vm_compute; reflexivity. Qed.

(** ** The whole script: run, then hook *)

(** X13.  On an engine where nothing fails, after a run with accepted
    options the hook ends normally and leaves exactly the rasters that
    were there at exit minus the temporaries of the three bands. *)
Theorem temporaries_gone_after_normal_run
        (e : engine) (o : options) (f : bool) (pid : Z) (rasters : gset string)
        (lower_out upper_out : string) :
  well_behaved e ->
  validate o = Ok ([red o; green o; blue o], (lower_out, upper_out)) ->
  fst (at_exit e o f pid rasters) = Ok tt /\
  fst (snd (at_exit e o f pid rasters))
  = rasters ∖ {[temp_name (red o) pid; temp_name (green o) pid;
                temp_name (blue o) pid]}.
Proof.
  intros Hwb Hv.
  pose proof (safe_main_rest e o f pid lower_out upper_out (mkState [] [])) as Hsafe.
  rewrite <- (main_after_validation _ _ _ _ _ _ _ Hv) in Hsafe.
  destruct (well_behaved_no_exception e _ Hwb Hsafe) as [msg Hmsg].
  destruct (main_registers e o f pid) as (p & Hp & _ & Hok).
  specialize (Hok msg Hmsg). subst p.
  destruct (fresh_bands_3_facts (suffix o) (red o) (green o) (blue o))
    as (_ & _ & Hmem).
  unfold at_exit. cbv zeta.
  destruct (cleanup_exact e (rm_rasters (snd (run_main e o f pid))) rasters
              (log (snd (run_main e o f pid)))) as (cs & -> & _).
  { intros history name. apply Hwb. }
  split; [done |]. simpl. rewrite Hp.
  apply set_eq. intros name.
  rewrite !elem_of_difference, elem_of_list_to_set, list_elem_of_fmap.
  split.
  - intros [Hin Hno]. split; [done |]. intros Hn. apply Hno.
    apply elem_of_union in Hn as [Hn | Hn];
      [apply elem_of_union in Hn as [Hn | Hn] |];
      apply elem_of_singleton in Hn; subst name;
      eexists; (split; [reflexivity |]); apply Hmem; list_members; tauto.
  - intros [Hin Hno]. split; [done |]. intros (rast & -> & Hr).
    apply Hmem in Hr. apply Hno. list_members.
    destruct Hr as [-> | [-> | [-> | []]]]; set_solver.
Qed.

Lemma temporaries_gone_after_normal_run_witness :
  fst (at_exit demo_engine (demo_options "b4" "b3" "b4" "0,255" "s") false 4242
         {["b4"; "b3"; "b4_s"; "b3_s"; "b4_tmp_4242"; "b3_tmp_4242"]}) = Ok tt /\
  fst (snd (at_exit demo_engine (demo_options "b4" "b3" "b4" "0,255" "s") false 4242
              {["b4"; "b3"; "b4_s"; "b3_s"; "b4_tmp_4242"; "b3_tmp_4242"]}))
  = {["b4"; "b3"; "b4_s"; "b3_s"; "b4_tmp_4242"; "b3_tmp_4242"]}
      ∖ {[temp_name "b4" 4242; temp_name "b3" 4242; temp_name "b4" 4242]}.
Proof.
  apply (temporaries_gone_after_normal_run demo_engine
           (demo_options "b4" "b3" "b4" "0,255" "s") false 4242
           {["b4"; "b3"; "b4_s"; "b3_s"; "b4_tmp_4242"; "b3_tmp_4242"]} "0" "255").
  - exact demo_engine_well_behaved.
  - vm_compute. reflexivity.
Defined.
